(** * RECON (ADIYOGI V2): tool execution engine and result pipeline

    A shallow embedding of [services/execution/ToolExecutor.js] and
    [services/results/ResultProcessor.js].

    Conventions of the embedding.
    - A JavaScript string is a [string]: a sequence of code units, here
      restricted to the range 0..255.
    - A function that may throw returns [throws A = Exn + A]; [inl msg] is a
      thrown [Error] whose [message] is [msg].  A [try]/[catch] is a [match]
      on that sum.
    - Object fields that may be absent are [option]s.
    - Time stamps and durations ([Date.now()]) are left out of the records.
    - The logger calls have no effect on the values computed and are left
      out.  So is the registry [activeProcesses]: the functions embedded
      here write it and never read it. *)

From Stdlib Require Import ZArith Ascii String.
From stdpp Require Import gmap strings list pretty.

Local Open Scope string_scope.

(** ** Thrown errors *)

Definition Exn : Type := string.
Definition throws (A : Type) : Type := (Exn + A)%type.

Definition ret {A} (a : A) : throws A := inr a.
Definition throw {A} (msg : Exn) : throws A := inl msg.
Definition bind {A B} (m : throws A) (k : A → throws B) : throws B :=
  match m with
  | inl e => inl e
  | inr a => k a
  end.

Notation "'try!' x := m 'in' k" := (bind m (λ x, k))
  (at level 10, x name, m at level 100, k at level 200, only parsing).

(** ** String.prototype, on code units below 256 *)

Module Js.

Definition code (c : ascii) : nat := nat_of_ascii c.

Definition between (lo hi : nat) (c : ascii) : bool :=
  (lo <=? code c)%nat && (code c <=? hi)%nat.

Definition is_digit (c : ascii) : bool := between 48 57 c.
Definition is_upper (c : ascii) : bool := between 65 90 c.
Definition is_lower (c : ascii) : bool := between 97 122 c.
Definition is_alpha (c : ascii) : bool := is_upper c || is_lower c.
Definition is_alnum (c : ascii) : bool := is_alpha c || is_digit c.

Definition is_char (k : nat) (c : ascii) : bool := (code c =? k)%nat.

(** [\s] of a regular expression, which is also what [trim] strips:
    TAB, LF, VT, FF, CR, space and the no-break space. *)
Definition is_space (c : ascii) : bool :=
  between 9 13 c || is_char 32 c || is_char 160 c.

Definition LF : ascii := ascii_of_nat 10.
Definition TAB : ascii := ascii_of_nat 9.

Fixpoint all_chars (p : ascii → bool) (s : string) : bool :=
  match s with
  | EmptyString => true
  | String c s' => p c && all_chars p s'
  end.

Fixpoint map_chars (f : ascii → ascii) (s : string) : string :=
  match s with
  | EmptyString => EmptyString
  | String c s' => String (f c) (map_chars f s')
  end.

Fixpoint rev_onto (s acc : string) : string :=
  match s with
  | EmptyString => acc
  | String c s' => rev_onto s' (String c acc)
  end.

Definition reverse (s : string) : string := rev_onto s EmptyString.

(** Drops the longest prefix of characters satisfying [p]. *)
Fixpoint drop_while (p : ascii → bool) (s : string) : string :=
  match s with
  | EmptyString => EmptyString
  | String c s' => if p c then drop_while p s' else s
  end.

Fixpoint take_while (p : ascii → bool) (s : string) : string :=
  match s with
  | EmptyString => EmptyString
  | String c s' => if p c then String c (take_while p s') else EmptyString
  end.

Definition drop_while_end (p : ascii → bool) (s : string) : string :=
  reverse (drop_while p (reverse s)).

(** [s.trim()] *)
Definition trim (s : string) : string :=
  drop_while_end is_space (drop_while is_space s).

(** [s.startsWith(p)] *)
Fixpoint startsWith (p s : string) : bool :=
  match p, s with
  | EmptyString, _ => true
  | String a p', String b s' => Ascii.eqb a b && startsWith p' s'
  | String _ _, EmptyString => false
  end.

(** [s.endsWith(p)] *)
Definition endsWith (p s : string) : bool :=
  startsWith (reverse p) (reverse s).

(** [s.includes(sub)] *)
Fixpoint includes (sub s : string) : bool :=
  startsWith sub s ||
  match s with
  | EmptyString => false
  | String _ s' => includes sub s'
  end.

(** [s.split(sep)] for a one-character separator: the pieces between the
    separators, so a string without separator is one piece and the empty
    string gives one empty piece. *)
Fixpoint split_acc (sep : ascii) (cur : string) (s : string) : list string :=
  match s with
  | EmptyString => [reverse cur]
  | String c s' =>
      if Ascii.eqb c sep then reverse cur :: split_acc sep EmptyString s'
      else split_acc sep (String c cur) s'
  end.

Definition split (sep : ascii) (s : string) : list string :=
  split_acc sep EmptyString s.

(** [parts.join(sep)] *)
Fixpoint join (sep : string) (parts : list string) : string :=
  match parts with
  | [] => EmptyString
  | [p] => p
  | p :: rest => p ++ sep ++ join sep rest
  end.

(** [s.toLowerCase()]: A-Z, and the Latin-1 capitals 0xC0-0xDE but 0xD7. *)
Definition lower_char (c : ascii) : ascii :=
  if is_upper c || (between 192 222 c && negb (is_char 215 c))
  then ascii_of_nat (code c + 32) else c.

Definition toLowerCase (s : string) : string := map_chars lower_char s.

(** Removes every character satisfying [p]: [s.replace(/[...]/g, '')]. *)
Fixpoint remove_chars (p : ascii → bool) (s : string) : string :=
  match s with
  | EmptyString => EmptyString
  | String c s' => if p c then remove_chars p s' else String c (remove_chars p s')
  end.

(** [s.replace(new RegExp(pat, 'g'), value)] for a pattern without
    metacharacters and a value without [$]: every occurrence of [pat],
    left to right, not overlapping.  [skip] counts the characters of an
    occurrence that are still to be dropped. *)
Fixpoint replace_all_skip (pat value : string) (skip : nat) (s : string) : string :=
  match s with
  | EmptyString => EmptyString
  | String c s' =>
      match skip with
      | S k => replace_all_skip pat value k s'
      | O =>
          if startsWith pat s && negb (String.eqb pat EmptyString)
          then value ++ replace_all_skip pat value (String.length pat - 1) s'
          else String c (replace_all_skip pat value 0 s')
      end
  end.

Definition replace_all (pat value s : string) : string :=
  replace_all_skip pat value 0 s.

(** The order of the default [Array.prototype.sort] and of [<] on strings:
    lexicographic on code units. *)
Definition code_unit_compare (a b : string) : Z :=
  match String.compare a b with
  | Lt => (-1)%Z
  | Eq => 0%Z
  | Gt => 1%Z
  end.

End Js.

(** ** Array.prototype.sort

    The sort is stable (ECMAScript 2019).  For a comparator that is a
    total preorder every stable sort returns the same array; it is modelled
    by insertion from the right.  The comparator may throw, which aborts the
    sort. *)

Section Sort.
Context {A : Type}.
Variable cmp : A → A → throws Z.

Fixpoint insert_sorted (x : A) (l : list A) : throws (list A) :=
  match l with
  | [] => ret [x]
  | y :: l' =>
      try! c := cmp x y in
      if (c <=? 0)%Z then ret (x :: y :: l')
      else try! r := insert_sorted x l' in ret (y :: r)
  end.

Fixpoint array_sort (l : list A) : throws (list A) :=
  match l with
  | [] => ret []
  | x :: l' => try! r := array_sort l' in insert_sorted x r
  end.
End Sort.

(** The same sort for a comparator that cannot throw. *)
Section SortPure.
Context {A : Type}.
Variable cmp : A → A → Z.

Fixpoint insert_sorted_pure (x : A) (l : list A) : list A :=
  match l with
  | [] => [x]
  | y :: l' =>
      if (cmp x y <=? 0)%Z then x :: y :: l'
      else y :: insert_sorted_pure x l'
  end.

Fixpoint array_sort_pure (l : list A) : list A :=
  match l with
  | [] => []
  | x :: l' => insert_sorted_pure x (array_sort_pure l')
  end.
End SortPure.

(** ** The result pipeline: [services/results/ResultProcessor.js] *)

(** An element of a result array.  The text extractors produce strings;
    [JSON.parse] may produce anything else.  Of a value that is not a string
    the pipeline only asks whether it is a string ([typeof]), whether it is
    the same as another ([Set], SameValueZero) and, when sorting, what its
    string conversion is: such a value is represented by its SameValueZero
    class [cls]. *)
Inductive value : Type :=
  | VStr (s : string)
  | VOther (cls : nat).

#[global] Instance value_eq_dec : EqDecision value.
Proof. solve_decision. Defined.

(** What [JSON.parse] returned: an array, something else whose [typeof] is
    ['object'], or a primitive. *)
Inductive parsed : Type :=
  | PArray (elems : list value)
  | PObject (cls : nat)
  | PPrimitive.

(** The raw output handed to the pipeline: a string or any other value. *)
Inductive raw : Type :=
  | RawString (s : string)
  | RawOther.

(** The services of the JavaScript host that the pipeline calls and whose
    result depends on the engine or the locale. *)
Record Host : Type := {
  (** [JSON.parse(s)]; [None] when it throws a [SyntaxError] *)
  JSON_parse : string → option parsed;
  (** [a.localeCompare(b)] *)
  localeCompare : string → string → Z;
  (** [String(v)] for a value that is not a string, as the default sort
      computes it; it may throw a [TypeError] *)
  ToString : nat → throws string;
  (** the comparator of [sortResults] for [outputType] on two elements that
      are not both strings *)
  compare_mixed : string → value → value → throws Z
}.

Record Options : Type := {
  opt_outputType : option string;
  opt_maxResults : option Z;
  opt_deduplicate : option bool;
  opt_validate : option bool;
  opt_sort : option bool
}.

(** [options = {}] *)
Definition no_options : Options :=
  {| opt_outputType := None; opt_maxResults := None; opt_deduplicate := None;
     opt_validate := None; opt_sort := None |}.

Record Metadata : Type := {
  originalLength : nat;
  processedCount : nat
}.

Record ProcessedResult : Type := {
  pr_tool : string;
  pr_domain : string;
  pr_results : list value;
  pr_count : nat;
  pr_outputType : option string;
  pr_processed : bool;
  pr_error : option string;
  pr_metadata : option Metadata
}.

Module ResultProcessor.

Import Js.

(** [this.domainRegex = /^[a-zA-Z0-9.-]+$/] *)
Definition domain_char (c : ascii) : bool :=
  is_alnum c || is_char 46 c || is_char 45 c.

Definition domainRegex_test (s : string) : bool :=
  negb (String.eqb s EmptyString) && all_chars domain_char s.

(** One alternative of [25[0-5]|2[0-4][0-9]|[01]?[0-9][0-9]?]. *)
Definition octet_test (s : string) : bool :=
  match s with
  | String a EmptyString => is_digit a
  | String a (String b EmptyString) => is_digit a && is_digit b
  | String a (String b (String c EmptyString)) =>
      (is_char 50 a && is_char 53 b && between 48 53 c)
      || (is_char 50 a && between 48 52 b && is_digit c)
      || (between 48 49 a && is_digit b && is_digit c)
  | _ => false
  end.

(** [this.ipRegex]: four such octets separated by dots, anchored. *)
Definition ipRegex_test (s : string) : bool :=
  match split "." s with
  | [a; b; c; d] => octet_test a && octet_test b && octet_test c && octet_test d
  | _ => false
  end.

Fixpoint drop_chars (n : nat) (s : string) : string :=
  match n, s with
  | S k, String _ s' => drop_chars k s'
  | _, _ => s
  end.

Fixpoint take_chars (n : nat) (s : string) : string :=
  match n, s with
  | S k, String c s' => String c (take_chars k s')
  | _, _ => EmptyString
  end.

(** [s.match(re)] for a global expression [re]: [at_start] gives the match
    that begins at the first character, if there is one; after a match the
    search goes on behind it.  [skip] counts the characters of the last match
    still to be passed. *)
Fixpoint match_all_skip (at_start : string → option string) (skip : nat)
    (s : string) : list string :=
  match s with
  | EmptyString => []
  | String _ s' =>
      match skip with
      | S k => match_all_skip at_start k s'
      | O =>
          match at_start s with
          | Some m => m :: match_all_skip at_start (String.length m - 1) s'
          | None => match_all_skip at_start 0 s'
          end
      end
  end.

Definition match_all (at_start : string → option string) (s : string) : list string :=
  match_all_skip at_start 0 s.

(** [this.urlRegex = /https?:\/\/[^\s]+/g] *)
Definition url_at (s : string) : option string :=
  let body (scheme : string) :=
    let run := take_while (λ c, negb (is_space c)) (drop_chars (String.length scheme) s) in
    if String.eqb run EmptyString then None else Some (scheme ++ run) in
  if startsWith "https://" s then body "https://"
  else if startsWith "http://" s then body "http://"
  else None.

(** [this.emailRegex = /[a-zA-Z0-9._%+-]+@[a-zA-Z0-9.-]+\.[a-zA-Z]{2,}/g] *)
Definition local_char (c : ascii) : bool :=
  is_alnum c || is_char 46 c || is_char 95 c || is_char 37 c
  || is_char 43 c || is_char 45 c.

Definition two_letters (s : string) : bool :=
  match s with
  | String a (String b _) => is_alpha a && is_alpha b
  | _ => false
  end.

(** The greedy [[a-zA-Z0-9.-]+] gives back characters until a dot followed
    by two letters comes next: the last index [k >= 1] within the run of
    domain characters at which such a dot stands. *)
Fixpoint last_tld_dot (k : nat) (s : string) (best : option nat) : option nat :=
  match s with
  | EmptyString => best
  | String c s' =>
      if domain_char c then
        last_tld_dot (S k) s'
          (if is_char 46 c && (1 <=? k)%nat && two_letters s' then Some k else best)
      else best
  end.

Definition email_at (s : string) : option string :=
  let loc := take_while local_char s in
  if String.eqb loc EmptyString then None
  else
    match drop_chars (String.length loc) s with
    | String c rest =>
        if is_char 64 c then
          match last_tld_dot 0 rest None with
          | Some k =>
              Some (loc ++ "@" ++ take_chars k rest ++ "."
                        ++ take_while is_alpha (drop_chars (S k) rest))
          | None => None
          end
        else None
    | EmptyString => None
    end.

Definition lines (output : string) : list string :=
  trim <$> split LF output.

(** [parseDomainsOutput(output, baseDomain)] *)
Definition parseDomainsOutput (output baseDomain : string) : list string :=
  if String.eqb output EmptyString then []
  else
    toLowerCase <$>
      List.filter (λ line,
          if String.eqb line EmptyString || startsWith "#" line || startsWith "//" line
             || startsWith "=" line
          then false
          else includes "." line
                 && includes baseDomain line
                 && negb (includes " " line)
                 && (3 <? String.length line)%nat
                 && (String.length line <? 253)%nat
                 && domainRegex_test line)
        (lines output).

(** [parseUrlsOutput(output)] *)
Definition parseUrlsOutput (output : string) : list string :=
  if String.eqb output EmptyString then []
  else
    List.filter (λ url, (0 <? String.length url)%nat && (String.length url <? 2048)%nat)
      (trim <$> match_all url_at output).

(** [parseEmailsOutput(output)] *)
Definition parseEmailsOutput (output : string) : list string :=
  if String.eqb output EmptyString then []
  else
    List.filter (λ e, (0 <? String.length e)%nat && (String.length e <? 320)%nat)
      ((λ e, trim (toLowerCase e)) <$> match_all email_at output).

(** [parseIPsOutput(output)] *)
Definition parseIPsOutput (output : string) : list string :=
  if String.eqb output EmptyString then []
  else
    List.filter (λ line, negb (String.eqb line EmptyString) && ipRegex_test line)
      (lines output).

(** [parseTextOutput(output)] *)
Definition parseTextOutput (output : string) : list string :=
  if String.eqb output EmptyString then []
  else List.filter (λ line, (0 <? String.length line)%nat) (lines output).

(** [parseJsonOutput(output)]: a [SyntaxError] of [JSON.parse] is caught
    and the output is split into lines instead. *)
Definition parseJsonOutput (h : Host) (output : string) : list value :=
  if String.eqb output EmptyString then []
  else
    match JSON_parse h output with
    | Some (PArray elems) => elems
    | Some (PObject cls) => [VOther cls]
    | Some PPrimitive => []
    | None => VStr <$> parseTextOutput output
    end.

(** [typeof result === 'string' && p(result)] *)
Definition string_and (p : string → bool) (v : value) : bool :=
  match v with
  | VStr s => p s
  | VOther _ => false
  end.

(** [validateResults(results, outputType, domain)] *)
Definition validateResults (results : list value) (outputType domain : string)
    : list value :=
  if String.eqb outputType "domains" then
    List.filter (string_and (λ r,
      includes "." r && includes domain r && domainRegex_test r)) results
  else if String.eqb outputType "urls" then
    List.filter (string_and (λ r,
      startsWith "http://" r || startsWith "https://" r)) results
  else if String.eqb outputType "emails" then
    List.filter (string_and (λ r, includes "@" r && includes "." r)) results
  else if String.eqb outputType "ips" then
    List.filter (string_and ipRegex_test) results
  else
    List.filter (string_and (λ r, (0 <? String.length r)%nat)) results.

(** [set.add(x)]: a [Set] keeps its elements in insertion order. *)
Definition set_add (set : list value) (x : value) : list value :=
  if decide (x ∈ set) then set else set ++ [x].

(** [deduplicateResults(results)]: [[...new Set(results)]] *)
Definition deduplicateResults (results : list value) : list value :=
  foldl set_add [] results.

(** [parseInt(num, 10).toString()]: leading white space, a sign, then the
    digits up to the first other character; [NaN] without a digit.  (Beyond
    2^53 the host rounds; an octet is far below.) *)
Definition digit_value (c : ascii) : Z := Z.of_nat (code c - 48).

Definition digits_value (s : string) : Z :=
  foldl (λ acc c, acc * 10 + digit_value c)%Z 0%Z (list_ascii_of_string s).

Definition parseInt_toString (num : string) : string :=
  let s := drop_while is_space num in
  let '(neg, s) :=
    match s with
    | String c s' =>
        if is_char 45 c then (true, s')
        else if is_char 43 c then (false, s') else (false, s)
    | EmptyString => (false, s)
    end in
  let ds := take_while is_digit s in
  if String.eqb ds EmptyString then "NaN"
  else
    let n := digits_value ds in
    if (n =? 0)%Z then "0" else if neg then "-" ++ pretty n else pretty n.

(** [s.padStart(3, '0')] *)
Definition padStart3 (s : string) : string :=
  match String.length s with
  | 0 => "000" ++ s
  | 1 => "00" ++ s
  | 2 => "0" ++ s
  | _ => s
  end.

Definition ip_key (a : string) : string :=
  join EmptyString ((λ num, padStart3 (parseInt_toString num)) <$> split "." a).

Section Sorting.
Variable h : Host.

(** The comparator of the ['domains'] case. *)
Definition compare_domains (a b : value) : throws Z :=
  match a, b with
  | VStr x, VStr y =>
      if negb (String.length x =? String.length y)%nat
      then ret (Z.of_nat (String.length x) - Z.of_nat (String.length y))%Z
      else ret (localeCompare h x y)
  | _, _ => compare_mixed h "domains" a b
  end.

(** The comparator of the ['ips'] case. *)
Definition compare_ips (a b : value) : throws Z :=
  match a, b with
  | VStr x, VStr y => ret (localeCompare h (ip_key x) (ip_key y))
  | _, _ => compare_mixed h "ips" a b
  end.

(** The default comparator: the string conversions, by code units. *)
Definition sort_key (a : value) : throws string :=
  match a with
  | VStr x => ret x
  | VOther cls => ToString h cls
  end.

Definition compare_default (a b : value) : throws Z :=
  try! x := sort_key a in
  try! y := sort_key b in
  ret (code_unit_compare x y).

(** [sortResults(results, outputType)] *)
Definition sortResults (results : list value) (outputType : string)
    : throws (list value) :=
  if String.eqb outputType "domains" then array_sort compare_domains results
  else if String.eqb outputType "ips" then array_sort compare_ips results
  else array_sort compare_default results.
End Sorting.

(** [results.slice(0, maxResults)] *)
Definition slice_to (maxResults : Z) (results : list value) : list value :=
  if (0 <=? maxResults)%Z then take (Z.to_nat maxResults) results
  else take (Z.to_nat (Z.of_nat (length results) + maxResults)) results.

(** [createEmptyResult(tool, domain)] *)
Definition createEmptyResult (tool domain : string) : ProcessedResult :=
  {| pr_tool := tool; pr_domain := domain; pr_results := []; pr_count := 0;
     pr_outputType := None; pr_processed := true; pr_error := None;
     pr_metadata := Some {| originalLength := 0; processedCount := 0 |} |}.

Section Process.
Variable h : Host.

(** The [switch (outputType)] of [processResults]. *)
Definition parseByType (outputType rawOutput domain : string) : list value :=
  if String.eqb outputType "domains" then VStr <$> parseDomainsOutput rawOutput domain
  else if String.eqb outputType "urls" then VStr <$> parseUrlsOutput rawOutput
  else if String.eqb outputType "emails" then VStr <$> parseEmailsOutput rawOutput
  else if String.eqb outputType "ips" then VStr <$> parseIPsOutput rawOutput
  else if String.eqb outputType "json" then parseJsonOutput h rawOutput
  else VStr <$> parseTextOutput rawOutput.

(** The body of the [try] block of [processResults]. *)
Definition processResults_try (tool : string) (rawOutput : raw)
    (domain : string) (options : Options) : throws ProcessedResult :=
  let outputType := default "domains" (opt_outputType options) in
  let maxResults := default 10000%Z (opt_maxResults options) in
  let deduplicate := default true (opt_deduplicate options) in
  let validate := default true (opt_validate options) in
  let sort := default true (opt_sort options) in
  match rawOutput with
  | RawOther => ret (createEmptyResult tool domain)
  | RawString output =>
      if String.eqb output EmptyString then ret (createEmptyResult tool domain)
      else
        let results := parseByType outputType output domain in
        let results :=
          if validate then validateResults results outputType domain
          else results in
        let results :=
          if deduplicate then deduplicateResults results else results in
        try! results :=
          (if sort then sortResults h results outputType else ret results) in
        let results :=
          if negb (maxResults =? 0)%Z
             && (maxResults <? Z.of_nat (length results))%Z
          then slice_to maxResults results else results in
        ret {| pr_tool := tool; pr_domain := domain; pr_results := results;
               pr_count := length results;
               pr_outputType := Some outputType; pr_processed := true;
               pr_error := None;
               pr_metadata := Some {| originalLength := String.length output;
                                      processedCount := length results |} |}
  end.

(** [processResults(tool, rawOutput, domain, options)] *)
Definition processResults (tool : string) (rawOutput : raw)
    (domain : string) (options : Options) : ProcessedResult :=
  match processResults_try tool rawOutput domain options with
  | inr processedResult => processedResult
  | inl message =>
      {| pr_tool := tool; pr_domain := domain; pr_results := [];
         pr_count := 0; pr_outputType := None; pr_processed := false;
         pr_error := Some message; pr_metadata := None |}
  end.
End Process.

End ResultProcessor.

(** ** The execution engine: [services/execution/ToolExecutor.js] *)

(** A tool configuration object.  Every property may be absent: the table
    below gives each tool a command, arguments, a category, a time limit and
    an output type, but a [fallback] object holds only what replaces the
    primary's properties, and an object found through the prototype chain
    holds none of them. *)
#[local] Unset Elimination Schemes.
Inductive ToolConfig : Type := mkToolConfig {
  command : option string;
  args : option (list string);
  category : option string;
  timeout : option Z;
  outputType : option string;
  description : option string;
  fallback : option ToolConfig
}.
#[local] Set Elimination Schemes.

(** The double quote. *)
Definition dq : string := String (ascii_of_nat 34) EmptyString.

(** [config.execution] of [config/app.config.js] *)
Module config.
Definition timeout : Z := 300000.
Definition maxConcurrent : nat := 5.
End config.

(** What the operating system does with one spawned process, as far as the
    handlers of [runTool] see it: the first of them to settle the promise. *)
Inductive ProcEvent : Type :=
  (** [spawn] itself throws *)
  | SpawnThrows (message : string)
  (** the ['error'] event: the process could not be started *)
  | ErrorEvent (message : string)
  (** the ['close'] event *)
  | CloseEvent (code : option Z) (signal : option string) (stdout stderr : string)
  (** the timer set by [runTool] fires first *)
  | TimerFires.

Record ProcRun : Type := {
  event : ProcEvent;
  (** what the process has left in the output file by then, if it created it *)
  wrote : option string
}.

(** The operating system: the run of the [n]-th process spawned for one tool
    execution, given its command and argument vector. *)
Definition OS : Type := nat → string → list string → ProcRun.

(** The file system: path to content. *)
Abbreviation FS := (gmap string string).

Record Context : Type := {
  ctx_tool : string;
  ctx_domain : string;
  ctx_executionId : string;
  ctx_timestamp : string;
  ctx_outputFile : string;
  fallbackAttempted : bool
}.

(** The value [runTool] resolves with. *)
Record RunResult : Type := {
  rr_code : option Z;
  rr_signal : option string;
  rr_stdout : string;
  rr_stderr : string;
  rr_output : string;
  rr_outputFile : string
}.

(** The state a run of [runTool] works on: the context object (it is
    mutated), the file system, and the processes spawned so far. *)
Record RunState : Type := {
  rs_context : Context;
  rs_fs : FS;
  rs_spawned : list (string * list string)
}.

Record ResultMeta : Type := {
  meta_tool : string;
  meta_domain : string;
  meta_outputType : option string
}.

(** What [processResults] of the engine returns. *)
Record Processed : Type := {
  p_results : list string;
  p_count : nat;
  p_rawOutput : string;
  p_error : option string;
  p_metadata : option ResultMeta
}.

(** A per-tool result of the engine.  [tr_count] is [None] when the object
    has no [count] property. *)
Record ToolResult : Type := {
  tr_success : bool;
  tr_tool : option string;
  tr_domain : option string;
  tr_executionId : option string;
  tr_parentExecutionId : option string;
  tr_results : list string;
  tr_count : option nat;
  tr_rawOutput : option string;
  tr_error : option string;
  tr_metadata : option ResultMeta
}.

Record CallMeta : Type := {
  md_domain : string;
  md_tools : list string;
  md_totalResults : nat
}.

(** What [executeTools] returns. *)
Record ExecutionResult : Type := {
  er_success : bool;
  er_executionId : string;
  er_results : list ToolResult;
  er_error : option string;
  er_metadata : option CallMeta
}.

(** A settled promise, as [Promise.allSettled] reports it. *)
Inductive Settled (A : Type) : Type :=
  | Fulfilled (value : A)
  | Rejected (reason : Exn).
Arguments Fulfilled {A} value.
Arguments Rejected {A} reason.

(** The surroundings of one tool execution: the identifier drawn by
    [generateExecutionId], the reading of [Date.now()] in decimal, and the
    operating system. *)
Record ToolWorld : Type := {
  tw_executionId : string;
  tw_timestamp : string;
  tw_os : OS
}.

(** The surroundings of one call of [executeTools]: its own identifier, the
    results directory, and the surroundings of the execution of the tool at
    each position of the request. *)
Record World : Type := {
  w_executionId : string;
  w_resultsDir : string;
  w_tool : nat → ToolWorld
}.

Module ToolExecutor.

Import Js.

(** The table [toolConfigs] of [getToolConfiguration]. *)
Definition toolConfigs : gmap string ToolConfig :=
  list_to_map [
    ("subfinder",
     {| command := Some "subfinder";
        args := Some ["-d";
             "{domain}";
             "-all";
             "'-r";
             "-o";
             "{outputFile}"];
        category := Some "subdomain";
        timeout := Some 180000%Z;
        outputType := Some "domains";
        description := None;
        fallback := Some
           ({| command := None;
               args := None;
               category := None;
               timeout := None;
               outputType := None;
               description := Some "Not working";
               fallback := None |}) |});
    ("assetfinder",
     {| command := Some "assetfinder";
        args := Some ["--subs-only";
             "{domain}"];
        category := Some "subdomain";
        timeout := Some 120000%Z;
        outputType := Some "domains";
        description := None;
        fallback := None |});
    ("amass",
     {| command := Some "amass";
        args := Some ["enum";
             "-passive";
             "-d";
             "{domain}";
             "-o";
             "{outputFile}"];
        category := Some "subdomain";
        timeout := Some 300000%Z;
        outputType := Some "domains";
        description := None;
        fallback := None |});
    ("findomain",
     {| command := Some "findomain";
        args := Some ["-t";
             "{domain}";
             "-o"];
        category := Some "subdomain";
        timeout := Some 120000%Z;
        outputType := Some "domains";
        description := None;
        fallback := None |});
    ("sublist3r",
     {| command := Some "sublist3r";
        args := Some ["-d";
             "{domain}";
             "-o";
             "{outputFile}"];
        category := Some "subdomain";
        timeout := Some 180000%Z;
        outputType := Some "domains";
        description := None;
        fallback := None |});
    ("theharvester",
     {| command := Some "theHarvester";
        args := Some ["-d";
             "{domain}";
             "-b";
             "all";
             "-f";
             "{outputFile}"];
        category := Some "subdomain";
        timeout := Some 240000%Z;
        outputType := Some "domains";
        description := None;
        fallback := None |});
    ("crtsh",
     {| command := Some "curl";
        args := Some ["-s";
             "https://crt.sh/?q=%.{domain}&output=json"];
        category := Some "subdomain";
        timeout := Some 60000%Z;
        outputType := Some "domains";
        description := None;
        fallback := None |});
    ("gobuster",
     {| command := Some "gobuster";
        args := Some ["dns";
             "-d";
             "{domain}";
             "-w";
             "/usr/share/wordlists/subdomains.txt";
             "-o";
             "{outputFile}"];
        category := Some "active";
        timeout := Some 300000%Z;
        outputType := Some "domains";
        description := None;
        fallback := None |});
    ("ffuf",
     {| command := Some "ffuf";
        args := Some ["-w";
             "/usr/share/wordlists/subdomains.txt";
             "-u";
             "http://FUZZ.{domain}";
             "-o";
             "{outputFile}"];
        category := Some "active";
        timeout := Some 240000%Z;
        outputType := Some "domains";
        description := None;
        fallback := None |});
    ("dig",
     {| command := Some "dig";
        args := Some ["{domain}";
             "ANY";
             "+noall";
             "+answer"];
        category := Some "dns";
        timeout := Some 30000%Z;
        outputType := Some "text";
        description := None;
        fallback := None |});
    ("whois",
     {| command := Some "whois";
        args := Some ["{domain}"];
        category := Some "dns";
        timeout := Some 30000%Z;
        outputType := Some "text";
        description := None;
        fallback := None |});
    ("nslookup",
     {| command := Some "nslookup";
        args := Some ["{domain}"];
        category := Some "dns";
        timeout := Some 30000%Z;
        outputType := Some "text";
        description := None;
        fallback := Some
           ({| command := Some "sh";
               args := Some ["-c";
                    "dig +short {domain} A > {outputFile} && dig +short {domain} AAAA >> {outputFile} && dig +short {domain} MX >> {outputFile} && dig +short {domain} NS >> {outputFile} && dig +short {domain} TXT >> {outputFile}"];
               category := None;
               timeout := None;
               outputType := None;
               description := None;
               fallback := None |}) |});
    ("host",
     {| command := Some "host";
        args := Some ["{domain}"];
        category := Some "dns";
        timeout := Some 30000%Z;
        outputType := Some "text";
        description := None;
        fallback := Some
           ({| command := Some "sh";
               args := Some ["-c";
                    ("dig +short {domain} A | while read ip; do echo " ++ dq ++ "{domain} has address $ip" ++ dq ++ "; done > {outputFile} && dig +short {domain} MX | while read mx; do echo " ++ dq ++ "{domain} mail is handled by $mx" ++ dq ++ "; done >> {outputFile}")];
               category := None;
               timeout := None;
               outputType := None;
               description := None;
               fallback := None |}) |});
    ("linkfinder",
     {| command := Some "linkfinder";
        args := Some ["-i";
             "https://{domain}";
             "-o";
             "cli"];
        category := Some "javascript";
        timeout := Some 120000%Z;
        outputType := Some "text";
        description := None;
        fallback := Some
           ({| command := Some "sh";
               args := Some ["-c";
                    ("curl -s " ++ dq ++ "https://{domain}" ++ dq ++ " | grep -oE 'https?://[^" ++ dq ++ "\s<>]+' | sort -u > {outputFile} && curl -s " ++ dq ++ "https://{domain}/robots.txt" ++ dq ++ " | grep -E '^(Allow|Disallow):' | cut -d':' -f2 | sed 's/^ *//' >> {outputFile} && curl -s " ++ dq ++ "https://{domain}/sitemap.xml" ++ dq ++ " | grep -oE '<loc>[^<]+</loc>' | sed 's/<[^>]*>//g' >> {outputFile}")];
               category := None;
               timeout := None;
               outputType := None;
               description := None;
               fallback := None |}) |});
    ("jsparser",
     {| command := Some "jsparser";
        args := Some ["-u";
             "https://{domain}"];
        category := Some "javascript";
        timeout := Some 90000%Z;
        outputType := Some "text";
        description := None;
        fallback := Some
           ({| command := Some "sh";
               args := Some ["-c";
                    ("curl -s " ++ dq ++ "https://{domain}" ++ dq ++ " | grep -oE 'src=" ++ dq ++ "[^" ++ dq ++ "]*\.js[^" ++ dq ++ "]*" ++ dq ++ "' | cut -d'" ++ dq ++ "' -f2 > {outputFile} && curl -s " ++ dq ++ "https://{domain}" ++ dq ++ " | grep -oE 'href=" ++ dq ++ "[^" ++ dq ++ "]*\.js[^" ++ dq ++ "]*" ++ dq ++ "' | cut -d'" ++ dq ++ "' -f2 >> {outputFile} && curl -s " ++ dq ++ "https://{domain}" ++ dq ++ " | grep -oE 'https?://[^" ++ dq ++ "\s<>]+\.js' >> {outputFile}")];
               category := None;
               timeout := None;
               outputType := None;
               description := None;
               fallback := None |}) |});
    ("shodan",
     {| command := Some "shodan";
        args := Some ["host";
             "{domain}"];
        category := Some "osint";
        timeout := Some 60000%Z;
        outputType := Some "text";
        description := None;
        fallback := Some
           ({| command := Some "sh";
               args := Some ["-c";
                    ("curl -s " ++ dq ++ "https://api.shodan.io/shodan/host/search?key=demo&query={domain}" ++ dq ++ " | grep -oE '" ++ dq ++ "ip_str" ++ dq ++ ":" ++ dq ++ "[^" ++ dq ++ "]*" ++ dq ++ "' | cut -d'" ++ dq ++ "' -f4 > {outputFile} && dig +short {domain} A >> {outputFile} && whois {domain} | grep -E '^(Organization|OrgName|org-name):' >> {outputFile}")];
               category := None;
               timeout := None;
               outputType := None;
               description := None;
               fallback := None |}) |});
    ("spiderfoot",
     {| command := Some "spiderfoot";
        args := Some ["-s";
             "{domain}";
             "-t";
             "SUBDOMAIN"];
        category := Some "osint";
        timeout := Some 180000%Z;
        outputType := Some "text";
        description := None;
        fallback := Some
           ({| command := Some "sh";
               args := Some ["-c";
                    ("dig +short {domain} NS > {outputFile} && dig +short {domain} MX >> {outputFile} && dig +short {domain} A >> {outputFile} && whois {domain} | head -20 >> {outputFile} && curl -s " ++ dq ++ "https://api.hackertarget.com/reverseiplookup/?q={domain}" ++ dq ++ " >> {outputFile}")];
               category := None;
               timeout := None;
               outputType := None;
               description := None;
               fallback := None |}) |})
  ].

(** The property names every object literal inherits from
    [Object.prototype]: [toolConfigs[tool]] finds a value for them too. *)
Definition inherited_names : list string :=
  ["constructor"; "__defineGetter__"; "__defineSetter__"; "hasOwnProperty";
   "__lookupGetter__"; "__lookupSetter__"; "isPrototypeOf";
   "propertyIsEnumerable"; "toString"; "valueOf"; "__proto__";
   "toLocaleString"].

(** Such a value has none of the properties of a configuration. *)
Definition inherited_value : ToolConfig :=
  {| command := None; args := None; category := None; timeout := None;
     outputType := None; description := None; fallback := None |}.

(** [getToolConfiguration(tool)] *)
Definition getToolConfiguration (tool : string) : throws ToolConfig :=
  match toolConfigs !! tool with
  | Some toolConfig => ret toolConfig
  | None =>
      if bool_decide (tool ∈ inherited_names) then ret inherited_value
      else throw ("Unknown tool: " ++ tool)
  end.

(** [{ ...a, ...b }] *)
Definition or_else {A} (x y : option A) : option A :=
  match x with
  | Some _ => x
  | None => y
  end.

Definition spread (a b : ToolConfig) : ToolConfig :=
  {| command := or_else (command b) (command a);
     args := or_else (args b) (args a);
     category := or_else (category b) (category a);
     timeout := or_else (timeout b) (timeout a);
     outputType := or_else (outputType b) (outputType a);
     description := or_else (description b) (description a);
     fallback := or_else (fallback b) (fallback a) |}.

(** One label of the domain expression of [validateInputs]:
    [[a-zA-Z0-9](?:[a-zA-Z0-9-]{0,61}[a-zA-Z0-9])?] *)
Definition label_test (s : string) : bool :=
  match s with
  | EmptyString => false
  | String c _ =>
      (String.length s <=? 63)%nat
      && is_alnum c
      && match reverse s with
         | String d _ => is_alnum d
         | EmptyString => false
         end
      && all_chars (λ x, is_alnum x || is_char 45 x) s
  end.

(** [domainRegex.test(domain)]: labels separated by dots. *)
Definition domainRegex_test (domain : string) : bool :=
  forallb label_test (split "." domain).

(** [/[;&|`$(){}[\]]/] *)
Definition shell_char (c : ascii) : bool :=
  existsb (λ k, is_char k c) [59; 38; 124; 96; 36; 40; 41; 123; 125; 91; 93].

Definition has_char (p : ascii → bool) (s : string) : bool :=
  negb (all_chars (λ c, negb (p c)) s).

(** One of the [maliciousPatterns] matches. *)
Definition malicious (s : string) : bool :=
  has_char shell_char s || includes ".." s || has_char (is_char 0) s.

(** [validateInputs(tool, domain, options)] *)
Definition validateInputs (tool domain : string) : throws unit :=
  if String.eqb tool EmptyString then throw "Invalid tool name"
  else if String.eqb domain EmptyString then throw "Invalid domain"
  else if negb (domainRegex_test domain) then throw "Invalid domain format"
  else if malicious domain || malicious tool
       then throw "Potentially malicious input detected"
  else ret tt.

(** [createExecutionContext(tool, domain, options, executionId)].  The
    results directory [resultsDir] is [config.paths.results]; the tool and
    the domain have passed [validateInputs], so [path.join] has nothing to
    normalise in the file name. *)
Definition createExecutionContext (resultsDir : string) (w : ToolWorld)
    (tool domain : string) : Context :=
  {| ctx_tool := tool;
     ctx_domain := domain;
     ctx_executionId := tw_executionId w;
     ctx_timestamp := tw_timestamp w;
     ctx_outputFile :=
       resultsDir ++ "/" ++ tool ++ "_" ++ domain ++ "_" ++ tw_timestamp w
         ++ "_" ++ tw_executionId w ++ ".txt";
     fallbackAttempted := false |}.

(** [processCommandArgs(args, { domain, outputFile, executionId })] *)
Definition processCommandArgs (a : list string) (context : Context) : list string :=
  (λ arg,
     replace_all "{executionId}" (ctx_executionId context)
       (replace_all "{outputFile}" (ctx_outputFile context)
          (replace_all "{domain}" (ctx_domain context) arg))) <$> a.

Definition set_fallbackAttempted (st : RunState) : RunState :=
  {| rs_context :=
       {| ctx_tool := ctx_tool (rs_context st);
          ctx_domain := ctx_domain (rs_context st);
          ctx_executionId := ctx_executionId (rs_context st);
          ctx_timestamp := ctx_timestamp (rs_context st);
          ctx_outputFile := ctx_outputFile (rs_context st);
          fallbackAttempted := true |};
     rs_fs := rs_fs st;
     rs_spawned := rs_spawned st |}.

(** The call of [spawn] is recorded. *)
Definition spawned (st : RunState) (cmd : string) (argv : list string) : RunState :=
  {| rs_context := rs_context st;
     rs_fs := rs_fs st;
     rs_spawned := (rs_spawned st ++ [(cmd, argv)])%list |}.

(** The process has run and may have left an output file. *)
Definition process_ran (st : RunState) (run : ProcRun) : RunState :=
  {| rs_context := rs_context st;
     rs_fs := match wrote run with
              | Some content => <[ctx_outputFile (rs_context st) := content]> (rs_fs st)
              | None => rs_fs st
              end;
     rs_spawned := rs_spawned st |}.

(** [runTool(toolConfig, context)].  The function calls itself from its
    ['error'] handler; [fuel] bounds the depth of these calls, and [None]
    means that the bound was reached. *)
Fixpoint runTool_fuel (fuel : nat) (os : OS) (toolConfig : ToolConfig)
    (st : RunState) : option (throws RunResult * RunState) :=
  match fuel with
  | O => None
  | S fuel' =>
      let context := rs_context st in
      match args toolConfig with
      | None => Some (throw "Cannot read properties of undefined (reading 'map')", st)
      | Some a =>
          let processedArgs := processCommandArgs a context in
          let timeout :=
            match timeout toolConfig with
            | Some t => if (t =? 0)%Z then config.timeout else t
            | None => config.timeout
            end in
          match command toolConfig with
          | None =>
              Some (throw ("The " ++ dq ++ "file" ++ dq
                           ++ " argument must be of type string. Received undefined"),
                    st)
          | Some cmd =>
              let run := os (length (rs_spawned st)) cmd processedArgs in
              let st := spawned st cmd processedArgs in
              match event run with
              | SpawnThrows message => Some (throw message, st)
              | TimerFires =>
                  Some (throw ("Tool execution timeout after " ++ pretty timeout ++ "ms"),
                        process_ran st run)
              | CloseEvent code signal stdout stderr =>
                  let st := process_ran st run in
                  let fileOutput :=
                    match rs_fs st !! ctx_outputFile context with
                    | Some content => content
                    | None => stdout
                    end in
                  Some (ret {| rr_code := code; rr_signal := signal;
                               rr_stdout := stdout; rr_stderr := stderr;
                               rr_output := fileOutput;
                               rr_outputFile := ctx_outputFile context |},
                        st)
              | ErrorEvent message =>
                  match fallback toolConfig with
                  | Some fb =>
                      if fallbackAttempted context then Some (throw message, st)
                      else runTool_fuel fuel' os (spread toolConfig fb)
                             (set_fallbackAttempted st)
                  | None => Some (throw message, st)
                  end
              end
          end
      end
  end.

(** Two levels are all [runTool] ever needs (see [runTool_fuel_enough]). *)
Definition runTool (os : OS) (toolConfig : ToolConfig) (st : RunState)
    : throws RunResult * RunState :=
  default (throw "unreachable", st) (runTool_fuel 2 os toolConfig st).

(** The domain a line of output names. *)
Definition line_domain (baseDomain line : string) : string :=
  let domain := line in
  let domain :=
    if has_char (is_char 9) line then default EmptyString (head (split TAB line))
    else domain in
  let domain :=
    if includes " " line then
      let parts := split " " line in
      match List.find (λ part, includes "." part && includes baseDomain part) parts with
      | Some part => part
      | None => default EmptyString (head parts)
      end
    else domain in
  let domain := remove_chars (λ c, existsb (λ k, is_char k c) [91; 93; 40; 41; 123; 125]) domain in
  let domain := drop_while (λ c, negb (is_alnum c)) domain in
  drop_while_end (λ c, negb (ResultProcessor.domain_char c)) domain.

Fixpoint indexOf (x : string) (arr : list string) : option nat :=
  match arr with
  | [] => None
  | y :: arr' => if String.eqb y x then Some 0 else S <$> indexOf x arr'
  end.

(** [arr.filter((x, index, arr) => arr.indexOf(x) === index)] *)
Fixpoint first_indices (arr : list string) (index : nat) (l : list string) : list string :=
  match l with
  | [] => []
  | x :: l' =>
      if bool_decide (indexOf x arr = Some index)
      then x :: first_indices arr (S index) l'
      else first_indices arr (S index) l'
  end.

(** [parseDomainsOutput(output, baseDomain)] of the engine *)
Definition parseDomainsOutput (output baseDomain : string) : list string :=
  if String.eqb output EmptyString then []
  else
    let kept :=
      List.filter (λ line,
        if String.eqb line EmptyString || startsWith "#" line
           || startsWith "//" line || startsWith ";" line
        then false
        else if includes "Found" line || includes "Error" line
                || includes "timeout" line || includes "connection" line
                || includes "failed" line || includes "not found" line
        then false
        else
          let domain := line_domain baseDomain line in
          includes "." domain
          && (includes baseDomain domain || endsWith ("." ++ baseDomain) domain)
          && (3 <? String.length domain)%nat
          && ResultProcessor.domainRegex_test domain
          && negb (startsWith "." domain)
          && negb (endsWith "." domain))
        (ResultProcessor.lines output) in
    let domains := line_domain baseDomain <$> kept in
    array_sort_pure code_unit_compare (first_indices domains 0 domains).

(** [processResults(tool, result, context)] of the engine.  The output file
    is unlinked after the output has been parsed. *)
Definition processResults (tool : string) (result : RunResult)
    (context : Context) (fs : FS) : Processed * FS :=
  let output := rr_output result in
  match getToolConfiguration tool with
  | inr toolConfig =>
      let parsedResults :=
        if bool_decide (outputType toolConfig = Some "domains")
        then parseDomainsOutput output (ctx_domain context)
        else ResultProcessor.parseTextOutput output in
      ({| p_results := parsedResults;
          p_count := length parsedResults;
          p_rawOutput := output;
          p_error := None;
          p_metadata := Some {| meta_tool := tool;
                                meta_domain := ctx_domain context;
                                meta_outputType := outputType toolConfig |} |},
       delete (rr_outputFile result) fs)
  | inl message =>
      ({| p_results := []; p_count := 0; p_rawOutput := output;
          p_error := Some message; p_metadata := None |},
       fs)
  end.

(** The [try] block of [executeSingleTool], after the slot has been granted
    and counted (for these two steps see [Slots]). *)
Definition executeSingleTool_try (resultsDir : string) (w : ToolWorld)
    (tool domain : string) (parentExecutionId : option string) (fs : FS)
    : throws ToolResult * FS :=
  match getToolConfiguration tool with
  | inl message => (inl message, fs)
  | inr toolConfig =>
      match validateInputs tool domain with
      | inl message => (inl message, fs)
      | inr _ =>
          let context := createExecutionContext resultsDir w tool domain in
          let '(result, st) :=
            runTool (tw_os w) toolConfig
              {| rs_context := context; rs_fs := fs; rs_spawned := [] |} in
          match result with
          | inl message => (inl message, rs_fs st)
          | inr result =>
              let '(processedResult, fs) :=
                processResults tool result (rs_context st) (rs_fs st) in
              (inr {| tr_success := true;
                      tr_tool := Some tool;
                      tr_domain := Some domain;
                      tr_executionId := Some (tw_executionId w);
                      tr_parentExecutionId := parentExecutionId;
                      tr_results := p_results processedResult;
                      tr_count := Some (p_count processedResult);
                      tr_rawOutput := Some (p_rawOutput processedResult);
                      tr_error := p_error processedResult;
                      tr_metadata := p_metadata processedResult |},
               fs)
          end
      end
  end.

(** The object the [catch] block of [executeSingleTool] returns. *)
Definition failed (w : ToolWorld) (tool domain : string)
    (parentExecutionId : option string) (message : string) : ToolResult :=
  {| tr_success := false;
     tr_tool := Some tool;
     tr_domain := Some domain;
     tr_executionId := Some (tw_executionId w);
     tr_parentExecutionId := parentExecutionId;
     tr_results := [];
     tr_count := None;
     tr_rawOutput := None;
     tr_error := Some message;
     tr_metadata := None |}.

(** [executeSingleTool(tool, domain, options, parentExecutionId)].  The
    options are only logged and stored, never read. *)
Definition executeSingleTool (resultsDir : string) (w : ToolWorld)
    (tool domain : string) (parentExecutionId : option string) (fs : FS)
    : ToolResult * FS :=
  match executeSingleTool_try resultsDir w tool domain parentExecutionId fs with
  | (inr toolResult, fs) => (toolResult, fs)
  | (inl message, fs) => (failed w tool domain parentExecutionId message, fs)
  end.

(** The loop of [createConcurrentBatches]:
    [for (let i = 0; i < tools.length; i += batchSize)].  [None] when [fuel]
    iterations do not end it. *)
Fixpoint batches_from (fuel : nat) (tools : list string) (batchSize i : nat)
    : option (list (list string)) :=
  match fuel with
  | O => if (i <? length tools)%nat then None else Some []
  | S fuel' =>
      if (i <? length tools)%nat then
        (λ batches, take batchSize (drop i tools) :: batches)
          <$> batches_from fuel' tools batchSize (i + batchSize)
      else Some []
  end.

(** [createConcurrentBatches(tools)].  With a positive step the loop ends
    within [length tools] iterations; [None] stands for a loop that does not
    end (see [createConcurrentBatches_diverges]). *)
Definition createConcurrentBatches (maxConcurrent : nat) (tools : list string)
    : option (list (list string)) :=
  batches_from (S (length tools)) tools (Nat.min maxConcurrent (length tools)) 0.

Section Coordinator.
Variable maxConcurrent : nat.
Variable w : World.
Variable domain : string.

(** [batch.map(tool => this.executeSingleTool(...))] followed by
    [Promise.allSettled]: one settled promise per tool, in the order of the
    batch.  [index] is the position of the first tool of the batch in the
    request.  Each execution has its own output file; the file system is
    handed from one to the next. *)
Fixpoint run_batch (index : nat) (batch : list string) (fs : FS)
    : list (Settled ToolResult) * FS :=
  match batch with
  | [] => ([], fs)
  | tool :: batch' =>
      let '(toolResult, fs) :=
        executeSingleTool (w_resultsDir w) (w_tool w index) tool domain
          (Some (w_executionId w)) fs in
      let '(settled, fs) := run_batch (S index) batch' fs in
      (Fulfilled toolResult :: settled, fs)
  end.

(** What the loop over [batchResults] pushes. *)
Definition pushed (result : Settled ToolResult) : ToolResult :=
  match result with
  | Fulfilled value => value
  | Rejected reason =>
      {| tr_success := false; tr_tool := None; tr_domain := None;
         tr_executionId := None; tr_parentExecutionId := None;
         tr_results := []; tr_count := None; tr_rawOutput := None;
         tr_error := Some reason; tr_metadata := None |}
  end.

(** [for (const batch of concurrentBatches)] *)
Fixpoint run_batches (index : nat) (batches : list (list string)) (fs : FS)
    : list ToolResult * FS :=
  match batches with
  | [] => ([], fs)
  | batch :: batches' =>
      let '(batchResults, fs) := run_batch index batch fs in
      let '(results, fs) := run_batches (index + length batch) batches' fs in
      ((pushed <$> batchResults) ++ results, fs)%list
  end.

(** [executeMultipleTools(tools, domain, options, parentExecutionId)].
    [tools] is [None] for [null] or [undefined], whose [length] cannot be
    read. *)
Definition executeMultipleTools (tools : option (list string)) (fs : FS)
    : option (throws (list ToolResult) * FS) :=
  match tools with
  | None => Some (throw "Cannot read properties of undefined (reading 'length')", fs)
  | Some tools =>
      match createConcurrentBatches maxConcurrent tools with
      | None => None
      | Some concurrentBatches =>
          let '(results, fs) := run_batches 0 concurrentBatches fs in
          Some (ret results, fs)
      end
  end.

(** [executeTools(tools, domain, options)]; [None] when the call does not
    return. *)
Definition executeTools (tools : option (list string)) (fs : FS)
    : option (ExecutionResult * FS) :=
  match executeMultipleTools tools fs with
  | None => None
  | Some (inr results, fs) =>
      Some ({| er_success := true;
               er_executionId := w_executionId w;
               er_results := results;
               er_error := None;
               er_metadata :=
                 Some {| md_domain := domain;
                         md_tools := default [] tools;
                         md_totalResults :=
                           foldl (λ sum r, sum + length (tr_results r)) 0 results |} |},
            fs)
  | Some (inl message, fs) =>
      Some ({| er_success := false;
               er_executionId := w_executionId w;
               er_results := [];
               er_error := Some message;
               er_metadata := None |},
            fs)
  end.
End Coordinator.

End ToolExecutor.

(** ** Slots: the counter [concurrentExecutions]

    The beginning and the end of [executeSingleTool] as the event loop runs
    them.  A call first evaluates the loop condition of
    [waitForExecutionSlot]; when a slot is free the function returns, and the
    rest of [executeSingleTool] is resumed by a later job, which increments
    the counter.  Other calls may take steps in between. *)

Module Slots.

Inductive Phase : Type :=
  (** in [waitForExecutionSlot], before a test of the loop condition *)
  | Waiting
  (** the test found a free slot; the job that resumes after [await] is queued *)
  | Granted
  (** [this.concurrentExecutions++] is done *)
  | Counted
  (** [runTool] has spawned the external process *)
  | ProcessRunning
  (** the [finally] block is done *)
  | Finished.

#[global] Instance Phase_eq_dec : EqDecision Phase.
Proof. solve_decision. Defined.

Record State : Type := {
  concurrentExecutions : nat;
  phases : list Phase
}.

(** The step a scheduled job takes for the call at position [i]. *)
Inductive Action : Type :=
  (** evaluate [this.concurrentExecutions >= this.maxConcurrent] *)
  | Probe (i : nat)
  (** resume after [await this.waitForExecutionSlot()] and increment *)
  | Resume (i : nat)
  (** spawn the process *)
  | Spawn (i : nat)
  (** settle, and decrement in [finally] *)
  | Finish (i : nat).

Definition move (s : State) (i : nat) (p : Phase) (counter : nat) : State :=
  {| concurrentExecutions := counter; phases := <[i := p]> (phases s) |}.

Definition step (maxConcurrent : nat) (s : State) (a : Action) : option State :=
  match a with
  | Probe i =>
      match phases s !! i with
      | Some Waiting =>
          if (maxConcurrent <=? concurrentExecutions s)%nat then Some s
          else Some (move s i Granted (concurrentExecutions s))
      | _ => None
      end
  | Resume i =>
      match phases s !! i with
      | Some Granted => Some (move s i Counted (S (concurrentExecutions s)))
      | _ => None
      end
  | Spawn i =>
      match phases s !! i with
      | Some Counted => Some (move s i ProcessRunning (concurrentExecutions s))
      | _ => None
      end
  | Finish i =>
      match phases s !! i with
      | Some Counted | Some ProcessRunning =>
          Some (move s i Finished (Nat.pred (concurrentExecutions s)))
      | _ => None
      end
  end.

(** The steps of a schedule, one after the other; [None] if one of them is
    not enabled. *)
Fixpoint run (maxConcurrent : nat) (s : State) (schedule : list Action)
    : option State :=
  match schedule with
  | [] => Some s
  | a :: schedule' =>
      match step maxConcurrent s a with
      | Some s' => run maxConcurrent s' schedule'
      | None => None
      end
  end.

(** [n] calls of [executeSingleTool], none of which has tested the counter
    yet. *)
Definition initial (n : nat) : State :=
  {| concurrentExecutions := 0; phases := replicate n Waiting |}.

Definition count_phase (p : Phase) (s : State) : nat :=
  length (filter (λ q, q = p) (phases s)).

(** The counter counts the calls between their increment and their
    [finally] block. *)
Definition accounted (s : State) : Prop :=
  concurrentExecutions s = (count_phase Counted s + count_phase ProcessRunning s)%nat.

(** The external processes that are running. *)
Definition running_processes (s : State) : nat := count_phase ProcessRunning s.

(** One tool is started by a first call of [executeTools]; afterwards a
    second call starts a batch of five, whose five tests are made by the
    same [batch.map] before any of them is resumed. *)
Definition overlapping_calls : list Action :=
  [Probe 0; Resume 0; Spawn 0;
   Probe 1; Probe 2; Probe 3; Probe 4; Probe 5;
   Resume 1; Resume 2; Resume 3; Resume 4; Resume 5;
   Spawn 1; Spawn 2; Spawn 3; Spawn 4; Spawn 5].

End Slots.

(** ** Reference definitions, following the specification's words *)

(** "The subsequence of first occurrences in original input order": the
    elements of [l] at the positions where they stand for the first time. *)
Definition first_occurrences (l : list value) : list value :=
  omap (λ i, x ← l !! i; if decide (x ∈ take i l) then None else Some x)
       (seq 0 (length l)).

(** ** Inputs of the examples *)

(** A JSON text for an array of two objects whose [toString] and [valueOf]
    are numbers, so that they have no string conversion. *)
Definition unprintable_object : string :=
  "{" ++ dq ++ "toString" ++ dq ++ ":1," ++ dq ++ "valueOf" ++ dq ++ ":2}".

Definition unprintable_json : string :=
  "[" ++ unprintable_object ++ "," ++ unprintable_object ++ "]".

(** A host for the examples.  Of JSON it reads only the three texts the
    examples use; strings compare by code units; the object of class 0
    prints as every plain object does, the others are those of
    [unprintable_json]. *)
Definition example_host : Host :=
  {| JSON_parse := λ s,
       if String.eqb s "[]" then Some (PArray [])
       else if String.eqb s "{}" then Some (PObject 0)
       else if String.eqb s unprintable_json then Some (PArray [VOther 1; VOther 2])
       else None;
     localeCompare := Js.code_unit_compare;
     ToString := λ cls,
       match cls with
       | 0 => ret "[object Object]"
       | _ => throw "Cannot convert object to primitive value"
       end;
     compare_mixed := λ _ _ _, throw "a.localeCompare is not a function" |}.

(** The raw output of scenario B. *)
Definition scenario_B_output : string :=
  "www.example.com" ++ String Js.LF
  ("mail.example.com" ++ String Js.LF
  ("#comment" ++ String Js.LF "invalid..example.com")).

(** [{...options, outputType}] *)
Definition with_outputType (outputType : string) (options : Options) : Options :=
  {| opt_outputType := Some outputType;
     opt_maxResults := opt_maxResults options;
     opt_deduplicate := opt_deduplicate options;
     opt_validate := opt_validate options;
     opt_sort := opt_sort options |}.

(** The results directory of the examples. *)
Definition example_dir : string := "/srv/storage/results".

(** No program can be started: every spawn ends in the ['error'] event. *)
Definition os_nothing_starts : OS :=
  λ _ cmd _, {| event := ErrorEvent ("spawn " ++ cmd ++ " ENOENT"); wrote := None |}.

(** The process exits with code 0 having printed one name and created its
    output file without writing to it. *)
Definition os_empty_file : OS :=
  λ _ _ _, {| event := CloseEvent (Some 0%Z) None "api.example.com" EmptyString;
              wrote := Some EmptyString |}.

(** The process has written part of its output file when the timer fires. *)
Definition os_times_out : OS :=
  λ _ _ _, {| event := TimerFires; wrote := Some "api.example.com" |}.

Definition example_tool_world (os : OS) : ToolWorld :=
  {| tw_executionId := "5f2a9c"; tw_timestamp := "1700000000000"; tw_os := os |}.

Definition example_context (tool : string) : Context :=
  ToolExecutor.createExecutionContext example_dir
    (example_tool_world os_nothing_starts) tool "example.com".

Definition example_state (tool : string) : RunState :=
  {| rs_context := example_context tool; rs_fs := ∅; rs_spawned := [] |}.

(** The table's configuration of a tool; the empty one for other names. *)
Definition config_of (tool : string) : ToolConfig :=
  default ToolExecutor.inherited_value (ToolExecutor.toolConfigs !! tool).

(** A call in whose surroundings the process of the tool at position 1 runs
    into its time limit and no other program can be started. *)
Definition example_world : World :=
  {| w_executionId := "c0ffee";
     w_resultsDir := example_dir;
     w_tool := λ i,
       {| tw_executionId := "e" ++ pretty i;
          tw_timestamp := "1700000000000";
          tw_os := if (i =? 1)%nat then os_times_out else os_nothing_starts |} |}.

(** * More of the code

    The other functions of the two services, the validation middleware in
    front of them and the controller that reads their results. *)

From Stdlib Require Import Sorting.Sorted.

(** The code units of a string. *)
Definition chars (s : string) : list ascii := list_ascii_of_string s.

(** ** [ResultProcessor]: formatting *)

(** [formatResults(results, format)] for an array of strings.
    [JSON.stringify(results, null, 2)] is left to the host. *)
Definition formatResults (JSON_stringify : list string → string)
    (results : list string) (format : string) : string :=
  let format := Js.toLowerCase format in
  if String.eqb format "json" then JSON_stringify results
  else if String.eqb format "csv" then Js.join "," results
  else if String.eqb format "txt" || String.eqb format "text"
       then Js.join (String Js.LF EmptyString) results
  else if String.eqb format "html" then
    "<ul>" ++ String Js.LF
      (Js.join (String Js.LF EmptyString)
         ((λ result, "  <li>" ++ result ++ "</li>") <$> results)
       ++ String Js.LF "</ul>")
  else Js.join (String Js.LF EmptyString) results.

(** A line as [parseTextOutput] returns it: not empty, without white space
    at either end, without a line feed. *)
Definition clean_line (line : string) : Prop :=
  line ≠ EmptyString ∧ Js.trim line = line ∧ Js.LF ∉ chars line.



(** The characters of a name that matches the domain expression of
    [validateInputs]: letters, digits, the hyphen and the dot. *)
Definition host_char (c : ascii) : bool :=
  Js.is_alnum c || Js.is_char 45 c || Js.is_char 46 c.

(** ** The validation middleware: [middleware/validator.js] *)

Module validator.

(** [DOMAIN_REGEX] is the expression of the engine's [validateInputs], and
    the malicious patterns are the same three. *)
Definition DOMAIN_REGEX_test : string → bool := ToolExecutor.domainRegex_test.

Definition tool_name_char (c : ascii) : bool :=
  Js.is_alnum c || Js.is_char 95 c || Js.is_char 45 c.

(** [TOOL_NAME_REGEX.test(tool)]: [/^[a-zA-Z0-9_-]+$/] *)
Definition TOOL_NAME_REGEX_test (tool : string) : bool :=
  negb (String.eqb tool EmptyString) && Js.all_chars tool_name_char tool.

(** [validateDomain(domain)] *)
Definition validateDomain (domain : value) : throws string :=
  match domain with
  | VOther _ => throw "Domain is required and must be a string"
  | VStr domain =>
      if String.eqb domain EmptyString
      then throw "Domain is required and must be a string"
      else if (253 <? String.length domain)%nat
      then throw "Domain name too long (max 253 characters)"
      else if negb (DOMAIN_REGEX_test domain) then throw "Invalid domain format"
      else if ToolExecutor.malicious domain
      then throw "Potentially malicious domain detected"
      else ret (Js.trim (Js.toLowerCase domain))
  end.

(** [validateToolName(tool)] *)
Definition validateToolName (tool : value) : throws string :=
  match tool with
  | VOther _ => throw "Tool name is required and must be a string"
  | VStr tool =>
      if String.eqb tool EmptyString
      then throw "Tool name is required and must be a string"
      else if (50 <? String.length tool)%nat
      then throw "Tool name too long (max 50 characters)"
      else if negb (TOOL_NAME_REGEX_test tool) then throw "Invalid tool name format"
      else ret (Js.trim (Js.toLowerCase tool))
  end.

(** [tools.map(validateToolName)]: the first name that fails ends the call. *)
Fixpoint map_validateToolName (tools : list value) : throws (list string) :=
  match tools with
  | [] => ret []
  | tool :: rest =>
      try! name := validateToolName tool in
      try! names := map_validateToolName rest in
      ret (name :: names)
  end.

(** [validateToolArray(tools)]; [None] is a value that is not an array. *)
Definition validateToolArray (tools : option (list value)) : throws (list string) :=
  match tools with
  | None => throw "Tools must be an array"
  | Some tools =>
      if (length tools =? 0)%nat then throw "At least one tool must be specified"
      else if (20 <? length tools)%nat then throw "Too many tools specified (max 20)"
      else map_validateToolName tools
  end.

End validator.

(** ** The controller: [executeMultipleTools] of [ToolController] *)

(** The [summary] object of the response. *)
Record Summary : Type := {
  sum_totalTools : nat;
  sum_successfulTools : nat;
  sum_failedTools : Z;
  sum_totalResults : nat
}.

Module ToolController.

(** [result.results.reduce((sum, r) => sum + (r.count || 0), 0)] *)
Definition totalCount (results : list ToolResult) : nat :=
  foldl (λ sum r, sum + default 0 (tr_count r))%nat 0%nat results.

(** [result.results.filter(r => r.success).length] *)
Definition successfulTools (results : list ToolResult) : nat :=
  length (List.filter tr_success results).

Definition summary (tools : list string) (results : list ToolResult) : Summary :=
  {| sum_totalTools := length tools;
     sum_successfulTools := successfulTools results;
     sum_failedTools := (Z.of_nat (length tools) - Z.of_nat (successfulTools results))%Z;
     sum_totalResults := totalCount results |}.

End ToolController.

(** ** [ResultProcessor]: filtering and statistics *)

(** The [criteria] object of [filterResults].  A property that is absent
    is [None]; so is an [exclude] or [include] that is not an array. *)
Record Criteria : Type := {
  crit_pattern : option string;
  crit_minLength : option Z;
  crit_maxLength : option Z;
  crit_exclude : option (list string);
  crit_include : option (list string)
}.

Section FilterResults.

(** [new RegExp(pattern, 'i')]: the test of the compiled expression, or the
    [SyntaxError] of a pattern that is not one. *)
Variable RegExp_i : string → throws (string → bool).

(** [criteria.include.some(includePattern => ...)] *)
Fixpoint include_some (include : list string) (result : string) : throws bool :=
  match include with
  | [] => ret false
  | includePattern :: rest =>
      try! regex := RegExp_i includePattern in
      if regex result then ret true else include_some rest result
  end.

(** [filtered.filter(f)] for a callback that may throw. *)
Fixpoint filter_throwing (f : string → throws bool) (l : list string)
    : throws (list string) :=
  match l with
  | [] => ret []
  | x :: l' =>
      try! keep := f x in
      try! rest := filter_throwing f l' in
      ret (if keep then x :: rest else rest)
  end.

(** [for (const excludePattern of criteria.exclude)] *)
Fixpoint exclude_each (exclude : list string) (filtered : list string)
    : throws (list string) :=
  match exclude with
  | [] => ret filtered
  | excludePattern :: rest =>
      try! regex := RegExp_i excludePattern in
      exclude_each rest (List.filter (λ result, negb (regex result)) filtered)
  end.

(** [filterResults(results, criteria)] on an array of strings.  A pattern
    that is the empty string and a length limit that is 0 are falsy and
    are skipped like absent ones. *)
Definition filterResults (results : list string) (criteria : Criteria)
    : throws (list string) :=
  let filtered := results in
  try! filtered :=
    match crit_pattern criteria with
    | Some pattern =>
        if String.eqb pattern EmptyString then ret filtered
        else try! regex := RegExp_i pattern in ret (List.filter regex filtered)
    | None => ret filtered
    end in
  let filtered :=
    match crit_minLength criteria with
    | Some minLength =>
        if (minLength =? 0)%Z then filtered
        else List.filter (λ result, (minLength <=? Z.of_nat (String.length result))%Z)
               filtered
    | None => filtered
    end in
  let filtered :=
    match crit_maxLength criteria with
    | Some maxLength =>
        if (maxLength =? 0)%Z then filtered
        else List.filter (λ result, (Z.of_nat (String.length result) <=? maxLength)%Z)
               filtered
    | None => filtered
    end in
  try! filtered :=
    match crit_exclude criteria with
    | Some exclude => exclude_each exclude filtered
    | None => ret filtered
    end in
  match crit_include criteria with
  | Some include => filter_throwing (include_some include) filtered
  | None => ret filtered
  end.

End FilterResults.

(** [getSubdomainLevels(domains)]: the keys of the object are the numbers
    of labels, which no prototype property shadows. *)
Definition getSubdomainLevels (domains : list string) : gmap nat nat :=
  foldl (λ levels domain,
           let level := length (Js.split "." domain) in
           <[level := (default 0 (levels !! level) + 1)%nat]> levels)
    ∅ domains.

(** The name has [k] labels. *)
Definition labels_are (k : nat) (domain : string) : bool :=
  (length (Js.split "." domain) =? k)%nat.

(** A pattern language small enough for an example: a pattern matches the
    strings that contain it, whatever the case of the letters. *)
Definition RegExp_literal : string → throws (string → bool) :=
  λ pattern, ret (λ s, Js.includes (Js.toLowerCase pattern) (Js.toLowerCase s)).
(** * Properties *)

Local Open Scope list_scope.

(** ** Deduplication *)

Section Dedup.
Import ResultProcessor.

Lemma elem_of_set_add (set : list value) x y :
  y ∈ set_add set x ↔ y ∈ set ∨ y = x.
Proof.
  unfold set_add. case_decide as Hin.
  - split; [by left | intros [?| ->]; done].
  - rewrite elem_of_app, list_elem_of_singleton. done.
Qed.

Lemma deduplicateResults_snoc l x :
  deduplicateResults (l ++ [x]) = set_add (deduplicateResults l) x.
Proof. unfold deduplicateResults. by rewrite foldl_snoc. Qed.

Lemma elem_of_deduplicateResults l y : y ∈ deduplicateResults l ↔ y ∈ l.
Proof.
  induction l as [|x l IH] using rev_ind.
  - done.
  - rewrite deduplicateResults_snoc, elem_of_set_add, IH.
    rewrite elem_of_app, list_elem_of_singleton. done.
Qed.

Lemma first_occurrences_snoc l x :
  first_occurrences (l ++ [x])
  = first_occurrences l ++ (if decide (x ∈ l) then [] else [x]).
Proof.
  unfold first_occurrences.
  rewrite length_app, seq_app, omap_app. simpl. f_equal.
  - apply list_omap_ext, Forall_Forall2_diag, Forall_forall.
    intros i Hi%elem_of_seq.
    rewrite lookup_app_l by lia. rewrite take_app_le by lia. done.
  - rewrite list_lookup_middle by done. simpl.
    rewrite take_app_length. by case_decide.
Qed.

Lemma deduplicateResults_first_occurrences l :
  deduplicateResults l = first_occurrences l.
Proof.
  induction l as [|x l IH] using rev_ind.
  - done.
  - rewrite deduplicateResults_snoc, first_occurrences_snoc, IH.
    unfold set_add.
    destruct (decide (x ∈ l)) as [Hin|Hin].
    + rewrite decide_True; [by rewrite app_nil_r|].
      by rewrite <- IH, elem_of_deduplicateResults.
    + rewrite decide_False; [done|].
      by rewrite <- IH, elem_of_deduplicateResults.
Qed.

Lemma NoDup_deduplicateResults l : NoDup (deduplicateResults l).
Proof.
  induction l as [|x l IH] using rev_ind.
  - constructor.
  - rewrite deduplicateResults_snoc. unfold set_add.
    case_decide as Hin; [done|].
    apply NoDup_app. split_and!; [done| |apply NoDup_singleton].
    intros y Hy ->%list_elem_of_singleton. done.
Qed.

Lemma foldl_set_add_NoDup (k acc : list value) :
  NoDup (acc ++ k) → foldl set_add acc k = acc ++ k.
Proof.
  revert acc. induction k as [|x k IH]; intros acc Hnd; simpl.
  - by rewrite app_nil_r.
  - assert (x ∉ acc) as Hx.
    { apply NoDup_app in Hnd as (_ & Hd & _). intros Hin.
      apply (Hd x Hin). by left. }
    unfold set_add at 2. rewrite decide_False by done.
    rewrite IH; [by rewrite <- app_assoc|].
    by rewrite <- app_assoc.
Qed.
End Dedup.

(** C10. [deduplicateResults] returns, for every array (so for every array
    of strings), the subsequence of the first occurrences in the order of the
    input, and applying it a second time changes nothing. *)
Theorem deduplicateResults_keeps_first_occurrences (results : list value) :
  ResultProcessor.deduplicateResults results = first_occurrences results
  ∧ ResultProcessor.deduplicateResults (ResultProcessor.deduplicateResults results)
    = ResultProcessor.deduplicateResults results.
Proof.
  split.
  - apply deduplicateResults_first_occurrences.
  - unfold ResultProcessor.deduplicateResults at 1.
    rewrite foldl_set_add_NoDup; [done|].
    apply NoDup_deduplicateResults.
Qed.

Example deduplicateResults_strings :
  ResultProcessor.deduplicateResults
    (VStr <$> ["b.example.com"; "a.example.com"; "b.example.com"; "c.example.com";
               "a.example.com"])
  = VStr <$> ["b.example.com"; "a.example.com"; "c.example.com"].
Proof. reflexivity. Qed.

(** ** The pipeline never throws *)

Section Pipeline.
Import ResultProcessor.
Variable h : Host.





End Pipeline.

Section PipelineJson.
Import ResultProcessor.
Variable h : Host.


End PipelineJson.


(** An exception inside the [try] block: the default sort cannot convert
    the two objects to strings. *)
Example unprintable_json_is_absorbed :
  ResultProcessor.processResults example_host "crtsh"
    (RawString unprintable_json) "example.com"
    {| opt_outputType := Some "json"; opt_maxResults := None;
       opt_deduplicate := None; opt_validate := Some false; opt_sort := None |}
  = {| pr_tool := "crtsh"; pr_domain := "example.com"; pr_results := [];
       pr_count := 0; pr_outputType := None; pr_processed := false;
       pr_error := Some "Cannot convert object to primitive value";
       pr_metadata := None |}.
Proof. by vm_compute. Qed.


(** ** Scenario B *)

(** C7, as amended.  The result pipeline turns the raw output of scenario B,
    with output type domains and base domain example.com, into the list
    www.example.com, mail.example.com, invalid..example.com (by length, then
    by [localeCompare]) with count 3: only the comment line is dropped. *)
Theorem scenario_B_keeps_double_dot (h : Host) :
  let r := ResultProcessor.processResults h "subfinder"
             (RawString scenario_B_output) "example.com"
             (with_outputType "domains" no_options) in
  pr_results r = [VStr "www.example.com"; VStr "mail.example.com";
                  VStr "invalid..example.com"]
  ∧ pr_count r = 3
  ∧ pr_error r = None.
Proof. by vm_compute. Qed.

(** The list and the count that scenario B announces are not what the
    pipeline returns. *)
Lemma scenario_B_as_stated_fails :
  let r := ResultProcessor.processResults example_host "subfinder"
             (RawString scenario_B_output) "example.com"
             (with_outputType "domains" no_options) in
  ¬ (pr_results r = [VStr "mail.example.com"; VStr "www.example.com"]
     ∧ pr_count r = 2).
Proof. vm_compute. intros [H _]. discriminate H. Qed.

(** The parser of the engine keeps the entry too; its sort is by code
    units. *)
Example scenario_B_in_the_engine :
  ToolExecutor.parseDomainsOutput scenario_B_output "example.com"
  = ["invalid..example.com"; "mail.example.com"; "www.example.com"].
Proof. by vm_compute. Qed.

Example double_dot_passes_domainRegex :
  ResultProcessor.domainRegex_test "invalid..example.com" = true.
Proof. reflexivity. Qed.

(** ** The process runner *)

Section Runner.
Import ToolExecutor.
Variable os : OS.

Lemma runTool_fuel_mono fuel toolConfig st r :
  runTool_fuel fuel os toolConfig st = Some r →
  runTool_fuel (S fuel) os toolConfig st = Some r.
Proof.
  revert toolConfig st. induction fuel as [|fuel IH]; intros toolConfig st.
  - done.
  - intros Hrun. cbn [runTool_fuel] in Hrun. cbn [runTool_fuel].
    destruct (args toolConfig); [|done].
    destruct (command toolConfig); [|done].
    destruct (event _); try done.
    destruct (fallback toolConfig); [|done].
    destruct (fallbackAttempted _); [done|].
    apply IH in Hrun. exact Hrun.
Qed.

Lemma runTool_fuel_le fuel fuel' toolConfig st r :
  (fuel ≤ fuel')%nat →
  runTool_fuel fuel os toolConfig st = Some r →
  runTool_fuel fuel' os toolConfig st = Some r.
Proof.
  induction 1 as [|fuel' _ IH]; [done|].
  intros Hrun. by apply runTool_fuel_mono, IH.
Qed.

(** A call of [runTool] made with the flag [fallbackAttempted] set does not
    call [runTool] again. *)
Lemma runTool_fuel_1_after_fallback toolConfig st :
  fallbackAttempted (rs_context st) = true →
  is_Some (runTool_fuel 1 os toolConfig st).
Proof.
  intros Hflag. cbn [runTool_fuel].
  destruct (args toolConfig); [|by eexists].
  destruct (command toolConfig); [|by eexists].
  destruct (event _); try by eexists.
  destruct (fallback toolConfig); [|by eexists].
  rewrite Hflag. by eexists.
Qed.

Lemma runTool_fuel_2 toolConfig st :
  is_Some (runTool_fuel 2 os toolConfig st).
Proof.
  cbn [runTool_fuel].
  destruct (args toolConfig); [|by eexists].
  destruct (command toolConfig); [|by eexists].
  destruct (event _); try by eexists.
  destruct (fallback toolConfig); [|by eexists].
  destruct (fallbackAttempted _); [by eexists|].
  by apply runTool_fuel_1_after_fallback.
Qed.

(** [runTool] returns: a depth of two is enough, and more changes
    nothing. *)
Lemma runTool_fuel_enough fuel toolConfig st :
  (2 ≤ fuel)%nat →
  runTool_fuel fuel os toolConfig st = Some (runTool os toolConfig st).
Proof.
  intros Hfuel. destruct (runTool_fuel_2 toolConfig st) as [r Hr].
  rewrite (runTool_fuel_le 2 fuel _ _ r Hfuel Hr).
  unfold runTool. by rewrite Hr.
Qed.
End Runner.

Section RunnerCases.
Import ToolExecutor.
Variable os : OS.
Variables (toolConfig : ToolConfig) (st : RunState).
Variables (a : list string) (cmd : string).
Hypothesis Hargs : args toolConfig = Some a.
Hypothesis Hcommand : command toolConfig = Some cmd.

Let argv := processCommandArgs a (rs_context st).
Let run := os (length (rs_spawned st)) cmd argv.

Lemma runTool_close code signal stdout stderr :
  event run = CloseEvent code signal stdout stderr →
  runTool os toolConfig st
  = (inr {| rr_code := code; rr_signal := signal; rr_stdout := stdout;
            rr_stderr := stderr;
            rr_output :=
              default stdout
                (rs_fs (process_ran (spawned st cmd argv) run)
                   !! ctx_outputFile (rs_context st));
            rr_outputFile := ctx_outputFile (rs_context st) |},
     process_ran (spawned st cmd argv) run).
Proof.
  intros Hev. unfold runTool. cbn [runTool_fuel].
  rewrite Hargs, Hcommand. fold argv. fold run. rewrite Hev.
  reflexivity.
Qed.

Lemma runTool_timer :
  event run = TimerFires →
  runTool os toolConfig st
  = (inl ("Tool execution timeout after "
          ++ pretty (match timeout toolConfig with
                     | Some t => if (t =? 0)%Z then config.timeout else t
                     | None => config.timeout
                     end) ++ "ms")%string,
     process_ran (spawned st cmd argv) run).
Proof.
  intros Hev. unfold runTool. cbn [runTool_fuel].
  rewrite Hargs, Hcommand. fold argv. fold run. by rewrite Hev.
Qed.

Lemma runTool_error_rejects message :
  event run = ErrorEvent message →
  fallback toolConfig = None ∨ fallbackAttempted (rs_context st) = true →
  runTool os toolConfig st = (inl message, spawned st cmd argv).
Proof.
  intros Hev Hno. unfold runTool. cbn [runTool_fuel].
  rewrite Hargs, Hcommand. fold argv. fold run. rewrite Hev.
  destruct (fallback toolConfig) as [fb|]; [|done].
  destruct Hno as [?|Hflag]; [done|].
  cbn [spawned rs_context]. by rewrite Hflag.
Qed.

Lemma runTool_error_falls_back message fb :
  event run = ErrorEvent message →
  fallback toolConfig = Some fb →
  fallbackAttempted (rs_context st) = false →
  runTool os toolConfig st
  = runTool os (spread toolConfig fb) (set_fallbackAttempted (spawned st cmd argv)).
Proof.
  intros Hev Hfb Hflag.
  destruct (runTool_fuel_1_after_fallback os (spread toolConfig fb)
              (set_fallbackAttempted (spawned st cmd argv)) eq_refl) as [r Hr].
  unfold runTool at 1. cbn [runTool_fuel].
  rewrite Hargs, Hcommand. fold argv. fold run. rewrite Hev, Hfb.
  cbn [spawned rs_context]. rewrite Hflag.
  change (runTool_fuel 1 os (spread toolConfig fb)
            (set_fallbackAttempted (spawned st cmd argv)) = Some r) in Hr.
  etrans; [|symmetry; unfold runTool; by rewrite (runTool_fuel_mono _ _ _ _ _ Hr)].
  cbn [runTool_fuel] in Hr. cbn [spawned rs_context] in Hr.
  by rewrite Hr.
Qed.

(** With the flag set, a call spawns one process and none after it. *)
Lemma runTool_after_fallback :
  fallbackAttempted (rs_context st) = true →
  ∃ result st',
    runTool os toolConfig st = (result, st')
    ∧ rs_spawned st' = rs_spawned st ++ [(cmd, argv)]
    ∧ ∀ message, event run = ErrorEvent message → result = inl message.
Proof.
  intros Hflag. destruct (event run) as [m|m|code signal out err|] eqn:Hev.
  - eexists _, _. split; [|split; [|done]].
    + unfold runTool. cbn [runTool_fuel].
      rewrite Hargs, Hcommand. fold argv. fold run. by rewrite Hev.
    + done.
  - rewrite (runTool_error_rejects m Hev) by by right.
    eexists _, _. split; [done|]. split; [done|]. by intros ? [= ->].
  - rewrite (runTool_close _ _ _ _ Hev).
    eexists _, _. split; [done|]. split; [done|]. done.
  - rewrite (runTool_timer Hev).
    eexists _, _. split; [done|]. split; [done|]. done.
Qed.
End RunnerCases.

(** A call of [runTool] spawns at most two processes, whatever the
    configuration and its fallback are. *)
Lemma runTool_spawns_at_most_twice (os : OS) (toolConfig : ToolConfig) (st : RunState) :
  (length (rs_spawned (ToolExecutor.runTool os toolConfig st).2)
   ≤ length (rs_spawned st) + 2)%nat.
Proof.
  assert (∀ c s, (length (rs_spawned (ToolExecutor.runTool os c s).2)
                  ≤ length (rs_spawned s) + 1)%nat
                 ∨ fallbackAttempted (rs_context s) = false) as Hone.
  { intros c s.
    destruct (fallbackAttempted (rs_context s)) eqn:Hflag; [left|by right].
    destruct (args c) as [a|] eqn:Ha; [destruct (command c) as [cmd|] eqn:Hc|].
    - destruct (runTool_after_fallback os c s a cmd Ha Hc Hflag)
        as (result & s' & -> & Hsp & _).
      cbn [snd]. rewrite Hsp, length_app. cbn [length]. lia.
    - unfold ToolExecutor.runTool. cbn [ToolExecutor.runTool_fuel].
      rewrite Ha, Hc. cbn. lia.
    - unfold ToolExecutor.runTool. cbn [ToolExecutor.runTool_fuel].
      rewrite Ha. cbn. lia. }
  destruct (args toolConfig) as [a|] eqn:Ha;
    [destruct (command toolConfig) as [cmd|] eqn:Hc|].
  - destruct (event (os (length (rs_spawned st)) cmd
                (ToolExecutor.processCommandArgs a (rs_context st))))
      as [m|m|code signal out err|] eqn:Hev.
    + unfold ToolExecutor.runTool. cbn [ToolExecutor.runTool_fuel].
      rewrite Ha, Hc, Hev. cbn. rewrite length_app. cbn [length]. lia.
    + destruct (fallback toolConfig) as [fb|] eqn:Hfb;
        [destruct (fallbackAttempted (rs_context st)) eqn:Hflag|].
      * rewrite (runTool_error_rejects os toolConfig st a cmd Ha Hc m Hev)
          by by right.
        cbn. rewrite length_app. cbn [length]. lia.
      * rewrite (runTool_error_falls_back os toolConfig st a cmd Ha Hc m fb
                   Hev Hfb Hflag).
        destruct (Hone (ToolExecutor.spread toolConfig fb)
                    (ToolExecutor.set_fallbackAttempted
                       (ToolExecutor.spawned st cmd
                          (ToolExecutor.processCommandArgs a (rs_context st)))))
          as [Hle|Hno]; [|done].
        etrans; [exact Hle|]. cbn. rewrite length_app. cbn [length]. lia.
      * rewrite (runTool_error_rejects os toolConfig st a cmd Ha Hc m Hev)
          by by left.
        cbn. rewrite length_app. cbn [length]. lia.
    + rewrite (runTool_close os toolConfig st a cmd Ha Hc _ _ _ _ Hev).
      cbn. rewrite length_app. cbn [length]. lia.
    + rewrite (runTool_timer os toolConfig st a cmd Ha Hc Hev).
      cbn. rewrite length_app. cbn [length]. lia.
  - unfold ToolExecutor.runTool. cbn [ToolExecutor.runTool_fuel].
    rewrite Ha, Hc. cbn. lia.
  - unfold ToolExecutor.runTool. cbn [ToolExecutor.runTool_fuel].
    rewrite Ha. cbn. lia.
Qed.

(** The fallback of subfinder names neither a command nor arguments: the
    one retry spawns the primary command again. *)
Example subfinder_retries_the_same_command :
  (fst <$> rs_spawned
     (ToolExecutor.runTool os_nothing_starts (config_of "subfinder")
        (example_state "subfinder")).2)
  = ["subfinder"; "subfinder"].
Proof. by vm_compute. Qed.

(** C6, as amended.  When the process is closed (with exit code 0 or any
    other), the output [runTool] resolves with is the content of the declared
    output file whenever that file exists, the empty content included, and
    the captured stdout only when the file does not exist. *)
Theorem runTool_prefers_existing_output_file (os : OS) (toolConfig : ToolConfig)
    (st : RunState) (a : list string) (cmd : string)
    (code : option Z) (signal : option string) (stdout stderr : string) :
  args toolConfig = Some a →
  command toolConfig = Some cmd →
  event (os (length (rs_spawned st)) cmd
           (ToolExecutor.processCommandArgs a (rs_context st)))
    = CloseEvent code signal stdout stderr →
  ∃ result st',
    ToolExecutor.runTool os toolConfig st = (inr result, st')
    ∧ rr_stdout result = stdout
    ∧ (∀ content,
         rs_fs st' !! ctx_outputFile (rs_context st) = Some content →
         rr_output result = content)
    ∧ (rs_fs st' !! ctx_outputFile (rs_context st) = None →
       rr_output result = stdout).
Proof.
  intros Hargs Hcommand Hev.
  rewrite (runTool_close os toolConfig st a cmd Hargs Hcommand _ _ _ _ Hev).
  eexists _, _. split; [done|]. split; [done|].
  cbn [rr_output]. split.
  - by intros content ->.
  - by intros ->.
Qed.

Lemma runTool_prefers_existing_output_file_witness :
  ∃ result st',
    ToolExecutor.runTool os_empty_file (config_of "amass") (example_state "amass")
      = (inr result, st')
    ∧ rr_stdout result = "api.example.com"
    ∧ rr_output result = EmptyString.
Proof.
  destruct (runTool_prefers_existing_output_file os_empty_file
              (config_of "amass") (example_state "amass")
              ["enum"; "-passive"; "-d"; "{domain}"; "-o"; "{outputFile}"]
              "amass" (Some 0%Z) None "api.example.com" EmptyString
              eq_refl eq_refl eq_refl)
    as (result & st' & Hrun & Hout & Hfile & _).
  exists result, st'. split; [exact Hrun|]. split; [exact Hout|].
  apply Hfile.
  apply (f_equal snd) in Hrun. cbn [snd] in Hrun. subst st'.
  by vm_compute.
Defined.

(** An output file that exists but is empty is what [runTool] returns: the
    captured stdout is not used. *)
Lemma empty_output_file_is_not_replaced_by_stdout :
  ∃ result st',
    ToolExecutor.runTool os_empty_file (config_of "amass") (example_state "amass")
      = (inr result, st')
    ∧ rr_code result = Some 0%Z
    ∧ rs_fs st' !! ctx_outputFile (example_context "amass") = Some EmptyString
    ∧ rr_stdout result = "api.example.com"
    ∧ rr_output result ≠ rr_stdout result.
Proof.
  eexists _, _. split; [by vm_compute|].
  split; [done|]. split; [by vm_compute|]. split; [done|]. discriminate.
Qed.



(** ** One tool execution *)

Section SingleTool.
Import ToolExecutor.
Variables (resultsDir : string) (w : ToolWorld) (tool domain : string).
Variables (parent : option string) (fs : FS).

Lemma processResults_count_length result context fs0 :
  p_count (processResults tool result context fs0).1
  = length (p_results (processResults tool result context fs0).1).
Proof. unfold processResults. by destruct (getToolConfiguration tool). Qed.

(** What the [try] block returns when it does not throw. *)
Lemma executeSingleTool_try_returns toolResult :
  (executeSingleTool_try resultsDir w tool domain parent fs).1 = inr toolResult →
  tr_success toolResult = true
  ∧ tr_tool toolResult = Some tool
  ∧ tr_count toolResult = Some (length (tr_results toolResult)).
Proof.
  unfold executeSingleTool_try.
  destruct (getToolConfiguration tool) as [?|toolConfig]; [done|].
  destruct (validateInputs tool domain); [done|].
  destruct (runTool _ _ _) as [[?|result] st]; [done|].
  pose proof (processResults_count_length result (rs_context st) (rs_fs st))
    as Hcount.
  destruct (processResults _ _ _ _) as [processed fs1].
  cbn [fst] in *. intros [= <-]. cbn. by rewrite Hcount.
Qed.

Lemma executeSingleTool_caught message :
  (executeSingleTool_try resultsDir w tool domain parent fs).1 = inl message →
  (executeSingleTool resultsDir w tool domain parent fs).1
  = failed w tool domain parent message.
Proof.
  unfold executeSingleTool.
  destruct (executeSingleTool_try _ _ _ _ _ _) as [[?|?] ?]; [|done].
  by intros [= ->].
Qed.

Lemma executeSingleTool_returned toolResult :
  (executeSingleTool_try resultsDir w tool domain parent fs).1 = inr toolResult →
  (executeSingleTool resultsDir w tool domain parent fs).1 = toolResult.
Proof.
  unfold executeSingleTool.
  destruct (executeSingleTool_try _ _ _ _ _ _) as [[?|?] ?]; [done|].
  by intros [= ->].
Qed.

(** Whatever happens, the result names the tool it is about. *)
Lemma executeSingleTool_tool :
  tr_tool (executeSingleTool resultsDir w tool domain parent fs).1 = Some tool.
Proof.
  destruct (executeSingleTool_try resultsDir w tool domain parent fs).1
    as [message|toolResult] eqn:Htry.
  - by rewrite (executeSingleTool_caught _ Htry).
  - rewrite (executeSingleTool_returned _ Htry).
    by apply executeSingleTool_try_returns.
Qed.

(** On the success path the count is the number of results. *)
Lemma executeSingleTool_success_count :
  tr_success (executeSingleTool resultsDir w tool domain parent fs).1 = true →
  tr_count (executeSingleTool resultsDir w tool domain parent fs).1
  = Some (length (tr_results (executeSingleTool resultsDir w tool domain parent fs).1)).
Proof.
  destruct (executeSingleTool_try resultsDir w tool domain parent fs).1
    as [message|toolResult] eqn:Htry.
  - by rewrite (executeSingleTool_caught _ Htry).
  - rewrite (executeSingleTool_returned _ Htry). intros _.
    by apply executeSingleTool_try_returns.
Qed.

(** The causes of a failure. *)
Lemma unknown_tool_throws :
  toolConfigs !! tool = None →
  tool ∉ inherited_names →
  (executeSingleTool_try resultsDir w tool domain parent fs).1
  = inl ("Unknown tool: " ++ tool)%string.
Proof.
  intros Hnone Hnot. unfold executeSingleTool_try, getToolConfiguration.
  rewrite Hnone. by rewrite bool_decide_eq_false_2.
Qed.

Lemma runTool_rejection_throws toolConfig message st :
  getToolConfiguration tool = inr toolConfig →
  validateInputs tool domain = inr tt →
  runTool (tw_os w) toolConfig
    {| rs_context := createExecutionContext resultsDir w tool domain;
       rs_fs := fs; rs_spawned := [] |} = (inl message, st) →
  executeSingleTool_try resultsDir w tool domain parent fs
  = (inl message, rs_fs st).
Proof.
  intros Hcfg Hvalid Hrun. unfold executeSingleTool_try.
  by rewrite Hcfg, Hvalid, Hrun.
Qed.
End SingleTool.

(** ** Batches *)

Section Batches.
Import ToolExecutor.

Lemma batches_from_partition (tools : list string) (batchSize : nat) :
  (0 < batchSize)%nat →
  ∀ fuel i, (length tools ≤ i + fuel)%nat →
  ∃ batches,
    batches_from fuel tools batchSize i = Some batches
    ∧ concat batches = drop i tools
    ∧ Forall (λ batch, (0 < length batch ≤ batchSize)%nat) batches.
Proof.
  intros Hpos. induction fuel as [|fuel IH]; intros i Hfuel.
  - cbn [batches_from]. rewrite (proj2 (Nat.ltb_ge _ _)) by lia.
    exists []. split; [done|]. split; [|done].
    by rewrite drop_ge by lia.
  - cbn [batches_from]. destruct (Nat.ltb_spec i (length tools)) as [Hlt|Hge].
    + destruct (IH (i + batchSize)%nat) as (batches & -> & Hcat & Hall); [lia|].
      eexists. split; [done|]. split.
      * cbn [concat]. rewrite Hcat, <- drop_drop. apply take_drop.
      * constructor; [|done].
        rewrite length_take, length_drop. lia.
    + exists []. split; [done|]. split; [|done].
      by rewrite drop_ge by lia.
Qed.

(** With a positive limit the loop ends, and its batches are consecutive
    slices of the request, none empty and none longer than the limit. *)
Lemma createConcurrentBatches_partition (maxConcurrent : nat) (tools : list string) :
  (0 < maxConcurrent)%nat →
  ∃ batches,
    createConcurrentBatches maxConcurrent tools = Some batches
    ∧ concat batches = tools
    ∧ Forall (λ batch, (0 < length batch ≤ maxConcurrent)%nat) batches.
Proof.
  intros Hpos. unfold createConcurrentBatches.
  destruct tools as [|tool tools].
  - by exists [].
  - destruct (batches_from_partition (tool :: tools)
                (Nat.min maxConcurrent (length (tool :: tools)))
                ltac:(cbn [length]; lia)
                (S (length (tool :: tools))) 0 ltac:(lia))
      as (batches & Hrun & Hcat & Hall).
    exists batches. split; [done|]. split; [done|].
    eapply Forall_impl; [done|]. cbn beta. lia.
Qed.

(** More iterations than that change nothing. *)
Lemma batches_from_more_fuel (tools : list string) (batchSize : nat) fuel i batches :
  batches_from fuel tools batchSize i = Some batches →
  batches_from (S fuel) tools batchSize i = Some batches.
Proof.
  revert i batches. induction fuel as [|fuel IH]; intros i batches.
  - cbn [batches_from]. by destruct (i <? length tools)%nat.
  - intros Hrun. cbn [batches_from] in Hrun.
    change (batches_from (S (S fuel)) tools batchSize i)
      with (if (i <? length tools)%nat
            then (λ bs, take batchSize (drop i tools) :: bs)
                   <$> batches_from (S fuel) tools batchSize (i + batchSize)
            else Some []).
    destruct (i <? length tools)%nat; [|done].
    destruct (batches_from fuel tools batchSize (i + batchSize)) as [bs|] eqn:Hbs;
      [|done].
    by rewrite (IH _ _ Hbs).
Qed.

(** With the limit 0 the loop never ends on a request that is not empty:
    no number of iterations is enough. *)
Lemma createConcurrentBatches_diverges (tools : list string) fuel :
  tools ≠ [] →
  batches_from fuel tools (Nat.min 0 (length tools)) 0 = None.
Proof.
  intros Hne. cbn [Nat.min].
  assert ((0 <? length tools)%nat = true) as Hlt.
  { apply Nat.ltb_lt. destruct tools; [done|cbn; lia]. }
  induction fuel as [|fuel IH]; cbn [batches_from]; rewrite Hlt; [done|].
  change (0 + 0)%nat with 0%nat. by rewrite IH.
Qed.
End Batches.

(** ** The coordinator *)

Section CoordinatorFacts.
Import ToolExecutor.
Variable maxConcurrent : nat.
Variable w : World.
Variable domain : string.

Let single (i : nat) (tool : string) (fs : FS) : ToolResult * FS :=
  executeSingleTool (w_resultsDir w) (w_tool w i) tool domain
    (Some (w_executionId w)) fs.

Lemma run_batch_app index (l1 l2 : list string) fs :
  run_batch w domain index (l1 ++ l2) fs
  = let '(s1, fs1) := run_batch w domain index l1 fs in
    let '(s2, fs2) := run_batch w domain (index + length l1) l2 fs1 in
    (s1 ++ s2, fs2).
Proof.
  revert index fs. induction l1 as [|tool l1 IH]; intros index fs.
  - cbn [app run_batch length]. rewrite Nat.add_0_r.
    by destruct (run_batch w domain index l2 fs).
  - cbn [app run_batch length].
    destruct (executeSingleTool _ _ _ _ _ _) as [r fs1].
    rewrite IH.
    destruct (run_batch w domain (S index) l1 fs1) as [s1 fs2].
    replace (index + S (length l1))%nat with (S index + length l1)%nat by lia.
    by destruct (run_batch w domain (S index + length l1) l2 fs2).
Qed.

(** The batch boundaries do not show in the result. *)
Lemma run_batches_flat index (batches : list (list string)) fs :
  run_batches w domain index batches fs
  = let '(settled, fs') := run_batch w domain index (concat batches) fs in
    (pushed <$> settled, fs').
Proof.
  revert index fs. induction batches as [|batch batches IH]; intros index fs.
  - done.
  - cbn [run_batches concat]. rewrite run_batch_app.
    destruct (run_batch w domain index batch fs) as [s1 fs1].
    rewrite IH.
    destruct (run_batch w domain (index + length batch) (concat batches) fs1)
      as [s2 fs2].
    by rewrite fmap_app.
Qed.

Lemma run_batch_length index (batch : list string) fs :
  length (run_batch w domain index batch fs).1 = length batch.
Proof.
  revert index fs. induction batch as [|tool batch IH]; intros index fs.
  - done.
  - cbn [run_batch].
    destruct (executeSingleTool _ _ _ _ _ _) as [r fs1].
    specialize (IH (S index) fs1).
    destruct (run_batch w domain (S index) batch fs1) as [s fs2].
    cbn in *. by rewrite IH.
Qed.

(** Every promise of a batch is fulfilled, with the result of the
    execution of the tool at its position. *)
Lemma run_batch_lookup index (batch : list string) fs k tool :
  batch !! k = Some tool →
  ∃ fs_k,
    (run_batch w domain index batch fs).1 !! k
    = Some (Fulfilled (single (index + k) tool fs_k).1).
Proof.
  revert index fs k. induction batch as [|t batch IH]; intros index fs k Hk.
  - done.
  - cbn [run_batch].
    destruct (executeSingleTool _ _ _ _ _ _) as [r fs1] eqn:Hsingle.
    destruct k as [|k].
    + injection Hk as ->.
      destruct (run_batch w domain (S index) batch fs1) as [s fs2].
      exists fs. rewrite Nat.add_0_r. unfold single. by rewrite Hsingle.
    + destruct (IH (S index) fs1 k Hk) as [fs_k Hfs].
      destruct (run_batch w domain (S index) batch fs1) as [s fs2].
      exists fs_k. cbn in *.
      by replace (index + S k)%nat with (S (index + k)) by lia.
Qed.

Lemma executeTools_array (tools : list string) fs :
  (0 < maxConcurrent)%nat →
  executeTools maxConcurrent w domain (Some tools) fs
  = let '(settled, fs') := run_batch w domain 0 tools fs in
    Some ({| er_success := true;
             er_executionId := w_executionId w;
             er_results := pushed <$> settled;
             er_error := None;
             er_metadata :=
               Some {| md_domain := domain; md_tools := tools;
                       md_totalResults :=
                         foldl (λ sum r, sum + length (tr_results r))%nat 0%nat
                           (pushed <$> settled) |} |},
          fs').
Proof.
  intros Hpos.
  destruct (createConcurrentBatches_partition maxConcurrent tools Hpos)
    as (batches & Hb & Hcat & _).
  unfold executeTools, executeMultipleTools. rewrite Hb, run_batches_flat, Hcat.
  by destruct (run_batch w domain 0 tools fs).
Qed.
End CoordinatorFacts.

(** C2.  With a positive limit, [executeTools] on an array of tool names
    returns; the batches are consecutive slices of the request of at most
    [maxConcurrent] names; the result list has one entry per requested name,
    and the entry at each position carries the name requested at that
    position. *)
Theorem executeTools_keeps_request_order (maxConcurrent : nat) (w : World)
    (domain : string) (tools : list string) (fs : FS) :
  (0 < maxConcurrent)%nat →
  ∃ er fs' batches,
    ToolExecutor.executeTools maxConcurrent w domain (Some tools) fs = Some (er, fs')
    ∧ ToolExecutor.createConcurrentBatches maxConcurrent tools = Some batches
    ∧ concat batches = tools
    ∧ Forall (λ batch, (length batch ≤ maxConcurrent)%nat) batches
    ∧ length (er_results er) = length tools
    ∧ ∀ i tool,
        tools !! i = Some tool →
        ∃ r, er_results er !! i = Some r ∧ tr_tool r = Some tool.
Proof.
  intros Hpos.
  destruct (createConcurrentBatches_partition maxConcurrent tools Hpos)
    as (batches & Hb & Hcat & Hall).
  rewrite executeTools_array by done.
  pose proof (run_batch_length w domain 0 tools fs) as Hlen.
  pose proof (run_batch_lookup w domain 0 tools fs) as Hlookup.
  destruct (ToolExecutor.run_batch w domain 0 tools fs) as [settled fs'].
  cbn [fst] in *.
  eexists _, fs', batches. split; [done|]. split; [done|]. split; [done|].
  split. { eapply Forall_impl; [done|]. cbn beta. lia. }
  cbn [er_results]. split; [by rewrite length_fmap|].
  intros i tool Hi. destruct (Hlookup i tool Hi) as [fs_i Hfs].
  eexists. rewrite list_lookup_fmap, Hfs. split; [done|].
  cbn [ToolExecutor.pushed]. apply executeSingleTool_tool.
Qed.

Lemma executeTools_keeps_request_order_witness :
  ∃ er fs',
    ToolExecutor.executeTools 2 example_world "example.com"
      (Some ["dig"; "nosuchtool"; "whois"]) ∅ = Some (er, fs')
    ∧ ToolExecutor.createConcurrentBatches 2 ["dig"; "nosuchtool"; "whois"]
      = Some [["dig"; "nosuchtool"]; ["whois"]]
    ∧ tr_tool <$> er_results er = [Some "dig"; Some "nosuchtool"; Some "whois"].
Proof.
  destruct (executeTools_keeps_request_order 2 example_world "example.com"
              ["dig"; "nosuchtool"; "whois"] ∅ ltac:(lia))
    as (er & fs' & batches & Hrun & _ & _ & _ & Hlen & Hnames).
  exists er, fs'. split; [exact Hrun|]. split; [reflexivity|].
  destruct (Hnames 0 "dig" eq_refl) as (r0 & H0 & Ht0).
  destruct (Hnames 1 "nosuchtool" eq_refl) as (r1 & H1 & Ht1).
  destruct (Hnames 2 "whois" eq_refl) as (r2 & H2 & Ht2).
  destruct (er_results er) as [|x0 [|x1 [|x2 [|]]]]; try discriminate Hlen.
  injection H0 as ->. injection H1 as ->. injection H2 as ->.
  cbn. by rewrite Ht0, Ht1, Ht2.
Defined.

(** C3.  With a positive limit, [executeTools] returns.  Its [success] is
    false only for a request whose tool list cannot be read at all ([tools]
    is [None]); for a list of names it is true whatever the tools did, so
    also when each of them failed.  The entry at each position is the
    result of executing the tool named there, in its own surroundings, from
    the file system [fs_i] left by the executions before it; an exception
    thrown in that execution (unknown tool, invalid input, a process that
    does not start, a time-out) becomes the failed result of that entry. *)
Theorem executeTools_isolates_tool_failures (maxConcurrent : nat) (w : World)
    (domain : string) (tools : option (list string)) (fs : FS) :
  (0 < maxConcurrent)%nat →
  ∃ er fs',
    ToolExecutor.executeTools maxConcurrent w domain tools fs = Some (er, fs')
    ∧ (er_success er = false ↔ tools = None)
    ∧ ∀ names,
        tools = Some names →
        er_success er = true
        ∧ length (er_results er) = length names
        ∧ ∀ i tool,
            names !! i = Some tool →
            ∃ fs_i,
              er_results er !! i
              = Some (ToolExecutor.executeSingleTool (w_resultsDir w) (w_tool w i)
                        tool domain (Some (w_executionId w)) fs_i).1
              ∧ ∀ message,
                  (ToolExecutor.executeSingleTool_try (w_resultsDir w) (w_tool w i)
                     tool domain (Some (w_executionId w)) fs_i).1 = inl message →
                  er_results er !! i
                  = Some (ToolExecutor.failed (w_tool w i) tool domain
                            (Some (w_executionId w)) message).
Proof.
  intros Hpos. destruct tools as [names|].
  - rewrite executeTools_array by done.
    pose proof (run_batch_length w domain 0 names fs) as Hlen.
    pose proof (run_batch_lookup w domain 0 names fs) as Hlookup.
    destruct (ToolExecutor.run_batch w domain 0 names fs) as [settled fs'].
    cbn [fst] in *.
    eexists _, fs'. split; [done|]. cbn [er_success er_results].
    split; [done|].
    intros ? [= <-]. split; [done|]. split; [by rewrite length_fmap|].
    intros i tool Hi. destruct (Hlookup i tool Hi) as [fs_i Hfs].
    exists fs_i. rewrite list_lookup_fmap, Hfs. split; [done|].
    intros message Hthrow. cbn [ToolExecutor.pushed option_fmap fmap option_map].
    cbn. f_equal. by apply executeSingleTool_caught.
  - eexists _, fs. split; [done|]. cbn [er_success]. split; [done|]. done.
Qed.

Lemma executeTools_isolates_tool_failures_witness :
  ∃ er fs',
    ToolExecutor.executeTools 2 example_world "example.com"
      (Some ["nosuchtool"; "amass"; "whois"]) ∅ = Some (er, fs')
    ∧ er_success er = true
    ∧ length (er_results er) = 3.
Proof.
  destruct (executeTools_isolates_tool_failures 2 example_world "example.com"
              (Some ["nosuchtool"; "amass"; "whois"]) ∅ ltac:(lia))
    as (er & fs' & Hrun & _ & Hnames).
  destruct (Hnames _ eq_refl) as (Hsuccess & Hlen & _).
  exists er, fs'. split; [exact Hrun|]. split; [exact Hsuccess|exact Hlen].
Defined.

(** Every tool of the call fails, each for another reason, and the call
    succeeds. *)
Example all_tools_fail_call_succeeds :
  (λ '(er, _), (er_success er,
                (λ r, (tr_tool r, tr_success r, tr_error r)) <$> er_results er))
    <$> ToolExecutor.executeTools 2 example_world "example.com"
          (Some ["nosuchtool"; "amass"; "whois"]) ∅
  = Some (true,
          [(Some "nosuchtool", false, Some "Unknown tool: nosuchtool");
           (Some "amass", false, Some "Tool execution timeout after 300000ms");
           (Some "whois", false, Some "spawn whois ENOENT")]).
Proof. by vm_compute. Qed.

(** ** Count and clean-up of one tool execution *)

Section Cleanup.
Import ToolExecutor.
Variables (resultsDir : string) (w : ToolWorld) (tool domain : string).
Variables (parent : option string) (fs : FS).
Variables (toolConfig : ToolConfig) (a : list string) (cmd : string).
Hypothesis Hconfig : getToolConfiguration tool = inr toolConfig.
Hypothesis Hvalid : validateInputs tool domain = inr tt.
Hypothesis Hargs : args toolConfig = Some a.
Hypothesis Hcommand : command toolConfig = Some cmd.

Let context := createExecutionContext resultsDir w tool domain.
Let run := tw_os w 0 cmd (processCommandArgs a context).
Let st := {| rs_context := context; rs_fs := fs; rs_spawned := [] |}.


(** After a time-out a file the process has created is still there. *)
Lemma executeSingleTool_timeout_keeps_file content :
  event run = TimerFires →
  wrote run = Some content →
  (executeSingleTool resultsDir w tool domain parent fs).2
    !! ctx_outputFile context = Some content.
Proof.
  intros Hev Hwrote. unfold executeSingleTool, executeSingleTool_try.
  rewrite Hconfig, Hvalid. fold context. fold st.
  rewrite (runTool_timer (tw_os w) toolConfig st a cmd Hargs Hcommand Hev).
  cbn. fold context. fold run. rewrite Hwrote.
  apply lookup_insert_eq.
Qed.
End Cleanup.

Lemma executeSingleTool_failure_shape resultsDir w tool domain parent fs :
  tr_success (ToolExecutor.executeSingleTool resultsDir w tool domain parent fs).1
    = false →
  tr_results (ToolExecutor.executeSingleTool resultsDir w tool domain parent fs).1 = []
  ∧ tr_count (ToolExecutor.executeSingleTool resultsDir w tool domain parent fs).1
    = None.
Proof.
  destruct (ToolExecutor.executeSingleTool_try resultsDir w tool domain parent fs).1
    as [message|toolResult] eqn:Htry.
  - by rewrite (executeSingleTool_caught _ _ _ _ _ _ _ Htry).
  - rewrite (executeSingleTool_returned _ _ _ _ _ _ _ Htry).
    destruct (executeSingleTool_try_returns _ _ _ _ _ _ _ Htry) as (-> & _).
    done.
Qed.

(** C4, at the input at which it fails.  The result [executeSingleTool]
    returns for a tool that is not in the table has an empty result list and
    no [count] property; the claim asks for a count equal to the length of
    the list, 0. *)
Theorem failed_tool_result_has_no_count :
  let r := (ToolExecutor.executeSingleTool example_dir
              (example_tool_world os_nothing_starts) "nosuchtool" "example.com"
              None ∅).1 in
  tr_success r = false
  ∧ tr_error r = Some "Unknown tool: nosuchtool"
  ∧ tr_results r = []
  ∧ tr_count r = None
  ∧ tr_count r ≠ Some (length (tr_results r)).
Proof. by vm_compute. Qed.

(** C5, at the input at which it fails.  The process of amass, started with
    [-o] and the output file, has written a part of the file when the time
    limit is reached: the execution fails with the time-out error and the
    file is still in the file system afterwards. *)
Theorem timed_out_run_leaves_output_file :
  let run := ToolExecutor.executeSingleTool example_dir
               (example_tool_world os_times_out) "amass" "example.com" None ∅ in
  tr_success run.1 = false
  ∧ tr_error run.1 = Some "Tool execution timeout after 300000ms"
  ∧ ctx_outputFile (example_context "amass")
    = "/srv/storage/results/amass_example.com_1700000000000_5f2a9c.txt"
  ∧ run.2 !! ctx_outputFile (example_context "amass") = Some "api.example.com".
Proof. by vm_compute. Qed.

(** The same run ending in a ['close'] event removes the file. *)
Example closed_run_removes_output_file :
  (ToolExecutor.executeSingleTool example_dir
     (example_tool_world os_empty_file) "amass" "example.com" None ∅).2
    !! ctx_outputFile (example_context "amass") = None.
Proof. by vm_compute. Qed.

(** ** The slot counter *)

Section SlotCounter.
Import Slots.

Lemma count_insert (l : list Phase) i old new p :
  l !! i = Some old →
  (length (filter (λ q, q = p) (<[i:=new]> l)) + (if decide (old = p) then 1 else 0)
   = length (filter (λ q, q = p) l) + (if decide (new = p) then 1 else 0))%nat.
Proof.
  revert i. induction l as [|q l IH]; intros i Hi; [done|].
  destruct i as [|i].
  - injection Hi as ->. cbn [list_insert insert].
    rewrite !filter_cons. cbn beta.
    destruct (decide (old = p)), (decide (new = p)); cbn [length]; lia.
  - cbn [list_insert insert]. specialize (IH i Hi).
    rewrite !filter_cons. cbn beta.
    destruct (decide (q = p)); cbn [length Nat.add]; [f_equal|]; exact IH.
Qed.

Lemma step_accounted maxConcurrent s a s' :
  accounted s → step maxConcurrent s a = Some s' → accounted s'.
Proof.
  unfold accounted, count_phase. intros Hacc Hstep.
  destruct a as [i|i|i|i]; cbn [step] in Hstep;
    destruct (phases s !! i) as [[]|] eqn:Hi; try done;
    try (destruct (maxConcurrent <=? concurrentExecutions s)%nat);
    injection Hstep as <-; try done; cbn [move concurrentExecutions phases];
    match goal with
    | |- context [<[i:=?new]> _] =>
        pose proof (count_insert _ i _ new Counted Hi) as Hc;
        pose proof (count_insert _ i _ new ProcessRunning Hi) as Hr
    end;
    repeat case_decide; try done; lia.
Qed.

Lemma run_accounted maxConcurrent schedule s s' :
  accounted s → run maxConcurrent s schedule = Some s' → accounted s'.
Proof.
  revert s. induction schedule as [|a schedule IH]; intros s Hacc.
  - by intros [= <-].
  - cbn [run]. destruct (step maxConcurrent s a) as [s1|] eqn:Hstep; [|done].
    apply IH. by eapply step_accounted.
Qed.

Lemma initial_accounted n : accounted (initial n).
Proof.
  unfold accounted, initial, count_phase. cbn [phases concurrentExecutions].
  induction n as [|n IH]; [done|].
  cbn [replicate]. by rewrite !filter_cons_False.
Qed.
End SlotCounter.

(** C1, at the input at which it fails.  The limit is 5.  One call of
    [executeTools] has started a tool; a second call then starts a batch of
    five.  The five tests of [waitForExecutionSlot] all see the counter at 1
    and pass, because each increment is made by a later job: the counter
    reaches 6 and six external processes run at once. *)
Theorem slot_limit_is_exceeded :
  ToolExecutor.createConcurrentBatches config.maxConcurrent
    ["subfinder"; "assetfinder"; "amass"; "findomain"; "sublist3r"]
  = Some [["subfinder"; "assetfinder"; "amass"; "findomain"; "sublist3r"]]
  ∧ ∃ s,
      Slots.run config.maxConcurrent (Slots.initial 6) Slots.overlapping_calls = Some s
      ∧ Slots.concurrentExecutions s = 6
      ∧ Slots.running_processes s = 6
      ∧ (config.maxConcurrent < Slots.running_processes s)%nat.
Proof.
  split; [reflexivity|].
  eexists. split; [reflexivity|]. vm_compute. repeat split; lia.
Qed.

(** * Further properties of the code *)

(** ** Sorting *)

Section SortFacts.
Context {A : Type}.
Variable cmp : A → A → throws Z.

Lemma insert_sorted_perm x l r :
  insert_sorted cmp x l = inr r → r ≡ₚ x :: l.
Proof.
  revert r. induction l as [|y l IH]; intros r; cbn [insert_sorted].
  - by intros [= <-].
  - destruct (cmp x y) as [e|c]; [done|]. cbn [bind].
    destruct (c <=? 0)%Z; [by intros [= <-]|].
    destruct (insert_sorted cmp x l) as [e|r']; [done|]. cbn [bind ret].
    intros [= <-]. rewrite (IH r' eq_refl). apply Permutation_swap.
Qed.

Lemma array_sort_perm l r : array_sort cmp l = inr r → r ≡ₚ l.
Proof.
  revert r. induction l as [|x l IH]; intros r; cbn [array_sort].
  - by intros [= <-].
  - destruct (array_sort cmp l) as [e|r']; [done|]. cbn [bind].
    intros Hins%insert_sorted_perm. by rewrite Hins, (IH r' eq_refl).
Qed.

(** If the comparator never throws and agrees with a transitive relation
    [R] (not positive: [R x y]; positive: [R y x]), the result is ordered by
    [R]. *)
Variable R : A → A → Prop.
Hypothesis R_trans : ∀ x y z, R x y → R y z → R x z.

Lemma insert_sorted_ordered x l :
  (∀ y, y ∈ l → ∃ c, cmp x y = inr c
                      ∧ ((c ≤ 0)%Z → R x y) ∧ ((0 < c)%Z → R y x)) →
  StronglySorted R l →
  ∃ r, insert_sorted cmp x l = inr r ∧ StronglySorted R r.
Proof.
  induction l as [|y l IH]; intros Hcmp Hsorted; cbn [insert_sorted].
  - exists [x]. split; [done|]. repeat constructor.
  - destruct (Hcmp y ltac:(left)) as (c & -> & Hle & Hgt). cbn [bind].
    apply StronglySorted_inv in Hsorted as [Hsorted Hall].
    destruct (Z.leb_spec c 0) as [Hc|Hc].
    + eexists. split; [done|]. constructor; [by constructor|].
      constructor; [by apply Hle|].
      eapply Forall_impl; [exact Hall|]. intros z Hz.
      eapply R_trans; [by apply Hle|done].
    + destruct IH as (r & Hr & Hrs); [|done|].
      { intros z Hz. apply Hcmp. by right. }
      rewrite Hr. cbn [bind ret]. eexists. split; [done|].
      constructor; [done|].
      rewrite (insert_sorted_perm _ _ _ Hr). constructor; [by apply Hgt|done].
Qed.

Lemma array_sort_ordered l :
  (∀ x y, x ∈ l → y ∈ l → ∃ c, cmp x y = inr c
                      ∧ ((c ≤ 0)%Z → R x y) ∧ ((0 < c)%Z → R y x)) →
  ∃ r, array_sort cmp l = inr r ∧ StronglySorted R r ∧ r ≡ₚ l.
Proof.
  induction l as [|x l IH]; intros Hcmp; cbn [array_sort].
  - exists []. split; [done|]. split; [constructor|done].
  - destruct IH as (r & Hr & Hrs & Hperm).
    { intros y z Hy Hz. apply Hcmp; by right. }
    rewrite Hr. cbn [bind].
    destruct (insert_sorted_ordered x r) as (r' & Hr' & Hrs'); [|done|].
    { intros y Hy. apply Hcmp; [by left|]. right. by rewrite <- Hperm. }
    exists r'. split; [done|]. split; [done|].
    by rewrite (insert_sorted_perm _ _ _ Hr'), Hperm.
Qed.
End SortFacts.

(** ** The stages of the result pipeline *)

Section PipelineStages.
Import ResultProcessor.
Variable h : Host.

(** What the [try] block of [processResults] computes on a non-empty
    string, stage by stage. *)
Lemma processResults_try_stages tool output domain options :
  output ≠ EmptyString →
  let outputType := default "domains" (opt_outputType options) in
  let maxResults := default 10000%Z (opt_maxResults options) in
  let parsed := parseByType h outputType output domain in
  let validated :=
    if default true (opt_validate options)
    then validateResults parsed outputType domain else parsed in
  let unique :=
    if default true (opt_deduplicate options)
    then deduplicateResults validated else validated in
  processResults_try h tool (RawString output) domain options
  = bind (if default true (opt_sort options)
          then sortResults h unique outputType else ret unique)
      (λ sorted,
         let results :=
           if negb (maxResults =? 0)%Z && (maxResults <? Z.of_nat (length sorted))%Z
           then slice_to maxResults sorted else sorted in
         ret {| pr_tool := tool; pr_domain := domain; pr_results := results;
                pr_count := length results;
                pr_outputType := Some outputType; pr_processed := true;
                pr_error := None;
                pr_metadata := Some {| originalLength := String.length output;
                                       processedCount := length results |} |}).
Proof.
  intros Hne. unfold processResults_try.
  by rewrite (proj2 (String.eqb_neq _ _) Hne).
Qed.

Lemma processResults_empty_cases tool rawOutput domain options :
  rawOutput = RawOther ∨ rawOutput = RawString EmptyString →
  processResults h tool rawOutput domain options = createEmptyResult tool domain.
Proof. by intros [->| ->]. Qed.

Lemma slice_to_length (m : Z) (l : list value) :
  (0 < m)%Z → (Z.of_nat (length (slice_to m l)) ≤ m)%Z.
Proof.
  intros Hm. unfold slice_to. rewrite (proj2 (Z.leb_le 0 m)) by lia.
  rewrite length_take. lia.
Qed.

Lemma slice_to_sublist (m : Z) (l : list value) : slice_to m l `sublist_of` l.
Proof. unfold slice_to. destruct (0 <=? m)%Z; apply sublist_take. Qed.
End PipelineStages.

(** X1.  The number of results of the pipeline never exceeds a positive
    [maxResults] (10000 when the option is absent), whatever the output. *)
Theorem processResults_respects_maxResults (h : Host) (tool : string)
    (rawOutput : raw) (domain : string) (options : Options) :
  (0 < default 10000 (opt_maxResults options))%Z →
  (Z.of_nat (length (pr_results
      (ResultProcessor.processResults h tool rawOutput domain options)))
   ≤ default 10000 (opt_maxResults options))%Z.
Proof.
  intros Hm.
  destruct rawOutput as [output|];
    [destruct (decide (output = EmptyString)) as [->|Hne]|];
    [cbn; lia| |cbn; lia].
  unfold ResultProcessor.processResults.
  rewrite processResults_try_stages by done. cbv zeta.
  match goal with |- context [bind ?m _] => destruct m as [e|sorted] end;
    cbn [bind ret pr_results length]; [lia|].
  destruct (negb _ && _) eqn:Hcond.
  - by apply slice_to_length.
  - apply andb_false_iff in Hcond as [Hz|Hlt].
    + apply negb_false_iff, Z.eqb_eq in Hz. lia.
    + apply Z.ltb_ge in Hlt. lia.
Qed.

Lemma processResults_respects_maxResults_witness :
  (Z.of_nat (length (pr_results
      (ResultProcessor.processResults example_host "subfinder"
         (RawString scenario_B_output) "example.com"
         {| opt_outputType := None; opt_maxResults := Some 2%Z;
            opt_deduplicate := None; opt_validate := None; opt_sort := None |})))
   ≤ 2)%Z.
Proof.
  apply (processResults_respects_maxResults example_host "subfinder"
           (RawString scenario_B_output) "example.com"
           {| opt_outputType := None; opt_maxResults := Some 2%Z;
              opt_deduplicate := None; opt_validate := None; opt_sort := None |}).
  cbn. lia.
Defined.

(** X2.  Unless the option [deduplicate] is switched off, no result occurs
    twice in what the pipeline returns: sorting and truncation keep what
    the [Set] has made unique. *)
Theorem processResults_results_are_unique (h : Host) (tool : string)
    (rawOutput : raw) (domain : string) (options : Options) :
  opt_deduplicate options ≠ Some false →
  NoDup (pr_results (ResultProcessor.processResults h tool rawOutput domain options)).
Proof.
  intros Hdedup.
  assert (default true (opt_deduplicate options) = true) as Hd.
  { destruct (opt_deduplicate options) as [[]|]; done. }
  destruct rawOutput as [output|];
    [destruct (decide (output = EmptyString)) as [->|Hne]|];
    [cbn; constructor| |cbn; constructor].
  unfold ResultProcessor.processResults.
  rewrite processResults_try_stages by done. cbv zeta. rewrite Hd.
  match goal with
  | |- context [ResultProcessor.deduplicateResults ?v] =>
      pose proof (NoDup_deduplicateResults v) as Hnd;
      generalize dependent (ResultProcessor.deduplicateResults v)
  end.
  intros unique Hnd.
  assert (∀ sorted,
            (if default true (opt_sort options)
             then ResultProcessor.sortResults h unique
                    (default "domains" (opt_outputType options))
             else ret unique) = inr sorted → NoDup sorted) as Hsorted.
  { intros sorted. destruct (default true (opt_sort options));
      [|by intros [= <-]].
    unfold ResultProcessor.sortResults.
    repeat case_match; intros Hs%array_sort_perm; by rewrite Hs. }
  match goal with |- context [bind ?m _] => destruct m as [e|sorted] end;
    cbn [bind ret pr_results]; [constructor|].
  specialize (Hsorted sorted eq_refl).
  destruct (negb _ && _); [|done].
  eapply sublist_NoDup; [done|apply slice_to_sublist].
Qed.

Lemma processResults_results_are_unique_witness :
  NoDup (pr_results (ResultProcessor.processResults example_host "subfinder"
           (RawString scenario_B_output) "example.com" no_options)).
Proof.
  apply (processResults_results_are_unique example_host "subfinder"
           (RawString scenario_B_output) "example.com" no_options).
  discriminate.
Defined.

(** ** Validation and sorting of results *)

Lemma filter_filter_same {A} (p : A → bool) (l : list A) :
  List.filter p (List.filter p l) = List.filter p l.
Proof.
  induction l as [|x l IH]; [done|]. cbn [List.filter].
  destruct (p x) eqn:Hp; [|done]. cbn [List.filter]. by rewrite Hp, IH.
Qed.

Lemma filter_string_and_strings (p : string → bool) (l : list value) :
  Forall (λ v, ∃ s, v = VStr s ∧ p s = true)
    (List.filter (ResultProcessor.string_and p) l).
Proof.
  induction l as [|[s|cls] l IH]; cbn [List.filter ResultProcessor.string_and];
    [constructor| |done].
  destruct (p s) eqn:Hp; [|done]. constructor; [by exists s|done].
Qed.

(** X3.  Whatever the output type, [validateResults] keeps strings only (an
    element that is not a string is always dropped), keeps them in their
    order, and validating a second time changes nothing. *)
Theorem validateResults_keeps_strings_only (results : list value)
    (outputType domain : string) :
  let validated := ResultProcessor.validateResults results outputType domain in
  Forall (λ v, ∃ s, v = VStr s) validated
  ∧ validated `sublist_of` results
  ∧ ResultProcessor.validateResults validated outputType domain = validated.
Proof.
  unfold ResultProcessor.validateResults.
  repeat case_match;
    (split; [eapply Forall_impl; [apply filter_string_and_strings|];
             intros v (s & -> & _); by exists s|]);
    (split; [|apply filter_filter_same]).
  all: match goal with
       | |- List.filter ?p ?l `sublist_of` _ =>
           clear; induction l as [|x l IH]; [done|]; cbn [List.filter];
           destruct (p x); [by constructor|by apply sublist_cons]
       end.
Qed.

Lemma fmap_VStr_Permutation (l k : list string) :
  VStr <$> l ≡ₚ VStr <$> k → l ≡ₚ k.
Proof.
  intros Hperm.
  set (g := λ v, match v with VStr s => s | VOther _ => EmptyString end).
  assert (∀ m : list string, g <$> (VStr <$> m) = m) as Hg.
  { induction m as [|s m IH]; [done|]. by rewrite !fmap_cons, IH. }
  apply (fmap_Permutation g) in Hperm. by rewrite !Hg in Hperm.
Qed.

Section SortResultsFacts.
Import ResultProcessor.
Variable h : Host.

(** X4.  On domain names [sortResults] never throws; it returns the same
    names rearranged so that no name is followed by a shorter one, whatever
    the host's [localeCompare] says about names of equal length. *)
Theorem sortResults_domains_by_length (names : list string) :
  ∃ sorted,
    sortResults h (VStr <$> names) "domains" = inr (VStr <$> sorted)
    ∧ sorted ≡ₚ names
    ∧ StronglySorted (λ a b, String.length a ≤ String.length b)%nat sorted.
Proof.
  destruct (array_sort_ordered (compare_domains h)
              (λ a b, ∃ x y, a = VStr x ∧ b = VStr y
                             ∧ (String.length x ≤ String.length y)%nat)
              ltac:(intros ??? (x&y&->&->&?) (y'&z&[= <-]&->&?);
                    exists x, z; split_and!; [done..|lia])
              (VStr <$> names))
    as (r & Hr & Hsorted & Hperm).
  { intros a b (x & -> & _)%list_elem_of_fmap (y & -> & _)%list_elem_of_fmap.
    cbn [compare_domains].
    destruct (Nat.eqb_spec (String.length x) (String.length y)) as [Heq|Hne];
      cbn [negb]; eexists; (split; [done|]);
      (split; intros Hc; [exists x, y|exists y, x]); split_and!; try done; lia. }
  assert (∃ sorted, r = VStr <$> sorted) as [sorted ->].
  { assert (Forall (λ v, ∃ s, v = VStr s) r) as Hall.
    { rewrite Hperm. apply Forall_fmap, Forall_true. intros s. by exists s. }
    clear -Hall. induction Hall as [|v r [s ->] _ [sorted ->]];
      [by exists []|by exists (s :: sorted)]. }
  exists sorted. split; [exact Hr|]. split.
  - by apply fmap_VStr_Permutation.
  - clear -Hsorted. induction sorted as [|s sorted IH]; [constructor|].
    rewrite fmap_cons in Hsorted.
    apply StronglySorted_inv in Hsorted as [Hs Hall].
    constructor; [by apply IH|].
    rewrite Forall_fmap in Hall. eapply Forall_impl; [exact Hall|].
    intros z (x & y & [= <-] & [= <-] & Hle). exact Hle.
Qed.
End SortResultsFacts.

(** ** Facts about strings *)

Section StringFacts.
Import Js.

Lemma all_chars_Forall p s : all_chars p s = true ↔ Forall (λ c, p c = true) (chars s).
Proof.
  induction s as [|c s IH]; cbn [all_chars chars list_ascii_of_string].
  - split; [constructor|done].
  - rewrite andb_true_iff, IH, Forall_cons. done.
Qed.

Lemma startsWith_chars p s c :
  startsWith p s = true → c ∈ chars p → c ∈ chars s.
Proof.
  revert s. induction p as [|a p IH]; intros s; [by intros _ ?%elem_of_nil|].
  destruct s as [|b s]; [done|]. cbn [startsWith chars list_ascii_of_string].
  intros [Hab%Ascii.eqb_eq Hps]%andb_true_iff [->|Hc]%elem_of_cons.
  - subst. by left.
  - right. by apply IH.
Qed.

Lemma includes_chars sub s c :
  includes sub s = true → c ∈ chars sub → c ∈ chars s.
Proof.
  induction s as [|b s IH]; cbn [includes].
  - rewrite orb_false_r. apply startsWith_chars.
  - intros [Hst|Hin]%orb_true_iff Hc.
    + by eapply startsWith_chars.
    + right. by apply IH.
Qed.

Lemma has_char_elem p s :
  ToolExecutor.has_char p s = true ↔ ∃ c, c ∈ chars s ∧ p c = true.
Proof.
  unfold ToolExecutor.has_char. induction s as [|c s IH]; cbn [all_chars chars list_ascii_of_string].
  - split; [done|]. by intros (c & ?%elem_of_nil & _).
  - rewrite negb_andb, negb_involutive, orb_true_iff, IH. split.
    + intros [Hp|(d & Hd & Hp)]; [exists c|exists d]; split; try done;
        [by left|by right].
    + intros (d & [->|Hd]%elem_of_cons & Hp); [by left|right; by exists d].
Qed.

Lemma chars_map_chars f s : chars (map_chars f s) = f <$> chars s.
Proof.
  induction s as [|c s IH]; [done|].
  cbn [map_chars chars list_ascii_of_string]. rewrite fmap_cons. f_equal. exact IH.
Qed.

Lemma length_map_chars f s : String.length (map_chars f s) = String.length s.
Proof. induction s as [|c s IH]; [done|]. cbn. by rewrite IH. Qed.

Lemma startsWith_map_chars f p s :
  startsWith p s = true → startsWith (map_chars f p) (map_chars f s) = true.
Proof.
  revert s. induction p as [|a p IH]; intros s; [done|].
  destruct s as [|b s]; [done|]. cbn [startsWith map_chars].
  intros [->%Ascii.eqb_eq Hps]%andb_true_iff.
  by rewrite Ascii.eqb_refl, IH.
Qed.

Lemma includes_map_chars f sub s :
  includes sub s = true → includes (map_chars f sub) (map_chars f s) = true.
Proof.
  induction s as [|b s IH]; cbn [includes map_chars].
  - rewrite !orb_false_r. apply (startsWith_map_chars f sub EmptyString).
  - intros [Hst|Hin]%orb_true_iff; apply orb_true_iff.
    + left. by apply (startsWith_map_chars f sub (String b s)).
    + right. by apply IH.
Qed.

(** A lower-cased character is no capital letter, and lower-casing keeps a
    character of a domain name one. *)
Lemma lower_char_not_upper c : is_upper (lower_char c) = false.
Proof. by destruct c as [[] [] [] [] [] [] [] []]. Qed.

Lemma lower_char_domain_char c :
  ResultProcessor.domain_char c = true →
  ResultProcessor.domain_char (lower_char c) = true.
Proof. by destruct c as [[] [] [] [] [] [] [] []]. Qed.

Lemma toLowerCase_no_upper s c : c ∈ chars (toLowerCase s) → is_upper c = false.
Proof.
  unfold toLowerCase. rewrite chars_map_chars.
  intros (d & -> & _)%list_elem_of_fmap. apply lower_char_not_upper.
Qed.
End StringFacts.

(** Strings as lists of code units. *)
Section StringLists.
Import Js.

Lemma chars_inj a b : chars a = chars b → a = b.
Proof.
  intros H. rewrite <- (string_of_list_ascii_of_string a),
    <- (string_of_list_ascii_of_string b). unfold chars in H. by rewrite H.
Qed.

Lemma chars_app a b : chars (a ++ b)%string = chars a ++ chars b.
Proof.
  induction a as [|c a IH]; [done|].
  change (c :: chars (a ++ b)%string = c :: (chars a ++ chars b)).
  by rewrite IH.
Qed.

Lemma chars_length s : length (chars s) = String.length s.
Proof.
  induction s as [|c s IH]; [done|].
  change (S (length (chars s)) = S (String.length s)). by rewrite IH.
Qed.

Lemma chars_rev_onto s acc :
  chars (rev_onto s acc) = list.reverse (chars s) ++ chars acc.
Proof.
  revert acc. induction s as [|c s IH]; intros acc; [done|].
  cbn [rev_onto]. rewrite IH.
  change (chars (String c s)) with (c :: chars s).
  change (chars (String c acc)) with (c :: chars acc).
  by rewrite reverse_cons, <- app_assoc.
Qed.

Lemma chars_reverse s : chars (reverse s) = list.reverse (chars s).
Proof. unfold reverse. rewrite chars_rev_onto. apply app_nil_r. Qed.

Lemma startsWith_prefix p s : startsWith p s = true ↔ chars p `prefix_of` chars s.
Proof.
  revert s. induction p as [|a p IH]; intros s.
  - split; [intros _; apply prefix_nil|done].
  - destruct s as [|b s]; cbn [startsWith chars list_ascii_of_string].
    + split; [done|]. by intros ?%prefix_nil_not.
    + rewrite andb_true_iff, Ascii.eqb_eq, IH. split.
      * intros [-> Hp]. by apply prefix_cons.
      * intros Hp. split; [by eapply prefix_cons_inv_1|by eapply prefix_cons_inv_2].
Qed.

Lemma endsWith_suffix p s : endsWith p s = true ↔ chars p `suffix_of` chars s.
Proof.
  unfold endsWith. rewrite startsWith_prefix, !chars_reverse.
  symmetry. apply suffix_prefix_reverse.
Qed.

Lemma includes_infix sub s :
  includes sub s = true ↔ ∃ l1 l2, chars s = l1 ++ chars sub ++ l2.
Proof.
  induction s as [|b s IH]; cbn [includes].
  - rewrite orb_false_r, startsWith_prefix. split.
    + intros [l2 H]. by exists [], l2.
    + intros (l1 & l2 & H). cbn in H. symmetry in H.
      apply app_eq_nil in H as [-> [-> _]%app_eq_nil]. by exists [].
  - rewrite orb_true_iff, startsWith_prefix, IH. split.
    + intros [[l2 H]|(l1 & l2 & H)]; [by exists [], l2|].
      exists (b :: l1), l2. change (chars (String b s)) with (b :: chars s).
      by rewrite H.
    + intros (l1 & l2 & H). destruct l1 as [|c l1].
      * left. by exists l2.
      * right. exists l1, l2. change (chars (String b s)) with (b :: chars s) in H.
        by injection H.
Qed.

Lemma endsWith_includes c p s :
  endsWith (String c p) s = true → includes p s = true.
Proof.
  rewrite endsWith_suffix, includes_infix. intros [l H].
  exists (l ++ [c]), []. rewrite H.
  change (chars (String c p)) with (c :: chars p).
  by rewrite <- app_assoc, app_nil_r.
Qed.
End StringLists.

(** ** Domains, their case, and validation *)

Section DomainCase.
Import Js ResultProcessor.

Lemma filter_all_false {A} (p : A → bool) (l : list A) :
  Forall (λ x, p x = false) l → List.filter p l = [].
Proof.
  induction 1 as [|x l Hx _ IH]; [done|]. cbn [List.filter]. by rewrite Hx.
Qed.

Lemma filter_all_true {A} (p : A → bool) (l : list A) :
  Forall (λ x, p x = true) l → List.filter p l = l.
Proof.
  induction 1 as [|x l Hx _ IH]; [done|]. cbn [List.filter]. by rewrite Hx, IH.
Qed.

Lemma elem_of_filter_bool {A} (p : A → bool) (l : list A) x :
  x ∈ List.filter p l ↔ x ∈ l ∧ p x = true.
Proof. rewrite !list_elem_of_In. apply filter_In. Qed.

(** What [parseDomainsOutput] returns: lower-cased lines which, before
    lower-casing, named the base domain and matched the domain expression. *)
Lemma parseDomainsOutput_elem output baseDomain r :
  r ∈ parseDomainsOutput output baseDomain →
  ∃ line, r = toLowerCase line
          ∧ includes "." line = true
          ∧ includes baseDomain line = true
          ∧ domainRegex_test line = true.
Proof.
  unfold parseDomainsOutput. destruct (String.eqb output EmptyString);
    [by intros ?%elem_of_nil|].
  intros (line & -> & [_ Hp]%elem_of_filter_bool)%list_elem_of_fmap.
  exists line. split; [done|].
  destruct (_ || _); [done|].
  by repeat (apply andb_true_iff in Hp as [Hp ?]).
Qed.

Lemma domainRegex_test_toLowerCase line :
  domainRegex_test line = true → domainRegex_test (toLowerCase line) = true.
Proof.
  unfold domainRegex_test. intros [Hne Hall]%andb_true_iff.
  apply andb_true_iff. split.
  - destruct line; [done|]. done.
  - apply all_chars_Forall. apply all_chars_Forall in Hall.
    unfold toLowerCase. rewrite chars_map_chars, Forall_fmap.
    eapply Forall_impl; [exact Hall|]. intros c. apply lower_char_domain_char.
Qed.
End DomainCase.

(** X5.  With output type domains and validation on (the defaults), a base
    domain that contains a capital letter A-Z gives no result at all,
    whatever the output: the parser lower-cases the names it keeps, and the
    validation then looks for the base domain as it was given. *)
Theorem capital_in_base_domain_drops_everything (h : Host) (tool : string)
    (rawOutput : raw) (domain : string) (options : Options) :
  default "domains" (opt_outputType options) = "domains" →
  opt_validate options ≠ Some false →
  ToolExecutor.has_char Js.is_upper domain = true →
  pr_results (ResultProcessor.processResults h tool rawOutput domain options) = [].
Proof.
  intros Htype Hval Hupper.
  assert (default true (opt_validate options) = true) as Hv.
  { destruct (opt_validate options) as [[]|]; done. }
  destruct rawOutput as [output|];
    [destruct (decide (output = EmptyString)) as [->|Hne]|]; [done| |done].
  unfold ResultProcessor.processResults.
  rewrite processResults_try_stages by done. cbv zeta. rewrite Htype, Hv.
  change (ResultProcessor.parseByType h "domains" output domain)
    with (VStr <$> ResultProcessor.parseDomainsOutput output domain).
  assert (ResultProcessor.validateResults
            (VStr <$> ResultProcessor.parseDomainsOutput output domain)
            "domains" domain = []) as ->.
  { change (ResultProcessor.validateResults ?l "domains" domain)
      with (List.filter (ResultProcessor.string_and (λ r,
              Js.includes "." r && Js.includes domain r
              && ResultProcessor.domainRegex_test r)) l).
    apply filter_all_false, Forall_fmap, Forall_forall.
    intros r (line & -> & _)%parseDomainsOutput_elem.
    cbn [ResultProcessor.string_and compose].
    destruct (Js.includes domain (Js.toLowerCase line)) eqn:Hinc;
      [|by rewrite andb_false_r].
    apply has_char_elem in Hupper as (c & Hc & Hup).
    pose proof (includes_chars _ _ c Hinc Hc) as Hin.
    apply toLowerCase_no_upper in Hin. congruence. }
  assert (∀ m, ResultProcessor.slice_to m [] = []) as Hslice.
  { intros m. unfold ResultProcessor.slice_to.
    destruct (0 <=? m)%Z; apply take_nil. }
  destruct (default true (opt_deduplicate options)),
    (default true (opt_sort options)); cbn;
    destruct (negb _ && _); by rewrite ?Hslice.
Qed.

Lemma capital_in_base_domain_drops_everything_witness :
  pr_results (ResultProcessor.processResults example_host "subfinder"
    (RawString "www.Example.com") "Example.com" no_options) = [].
Proof.
  apply (capital_in_base_domain_drops_everything example_host "subfinder"
           (RawString "www.Example.com") "Example.com" no_options).
  - reflexivity.
  - discriminate.
  - reflexivity.
Defined.

(** X6.  For a base domain in lower case the validation of domains drops
    nothing of what [parseDomainsOutput] returns. *)
Theorem validateResults_keeps_parsed_domains (output domain : string) :
  Js.toLowerCase domain = domain →
  ResultProcessor.validateResults
    (VStr <$> ResultProcessor.parseDomainsOutput output domain) "domains" domain
  = VStr <$> ResultProcessor.parseDomainsOutput output domain.
Proof.
  intros Hlower.
  change (ResultProcessor.validateResults ?l "domains" domain)
    with (List.filter (ResultProcessor.string_and (λ r,
            Js.includes "." r && Js.includes domain r
            && ResultProcessor.domainRegex_test r)) l).
  apply filter_all_true, Forall_fmap, Forall_forall.
  intros r (line & -> & Hdot & Hbase & Hre)%parseDomainsOutput_elem.
  cbn [ResultProcessor.string_and compose].
  rewrite (includes_map_chars Js.lower_char "." line Hdot : Js.includes "." (Js.toLowerCase line) = true).
  pose proof (includes_map_chars Js.lower_char domain line Hbase) as Hb.
  fold (Js.toLowerCase domain) in Hb. rewrite Hlower in Hb.
  change (Js.map_chars Js.lower_char line) with (Js.toLowerCase line) in Hb.
  rewrite Hb. by rewrite domainRegex_test_toLowerCase.
Qed.

Lemma validateResults_keeps_parsed_domains_witness :
  ResultProcessor.validateResults
    (VStr <$> ResultProcessor.parseDomainsOutput scenario_B_output "example.com")
    "domains" "example.com"
  = VStr <$> ResultProcessor.parseDomainsOutput scenario_B_output "example.com".
Proof.
  apply (validateResults_keeps_parsed_domains scenario_B_output "example.com").
  reflexivity.
Defined.

(** ** The order of code units *)

Lemma array_sort_pure_spec {A} (cmp : A → A → Z) (l : list A) :
  array_sort (λ a b, ret (cmp a b)) l = inr (array_sort_pure cmp l).
Proof.
  assert (∀ x k, insert_sorted (λ a b, ret (cmp a b)) x k
                 = inr (insert_sorted_pure cmp x k)) as Hins.
  { intros x k. induction k as [|y k IH]; [done|].
    cbn [insert_sorted insert_sorted_pure bind ret].
    destruct (cmp x y <=? 0)%Z; [done|]. by rewrite IH. }
  induction l as [|x l IH]; [done|].
  cbn [array_sort array_sort_pure]. rewrite IH. cbn [bind]. apply Hins.
Qed.

Lemma ascii_compare_cases (a b : ascii) :
  match Ascii.compare a b with
  | Eq => a = b
  | Lt => (N_of_ascii a < N_of_ascii b)%N
  | Gt => (N_of_ascii b < N_of_ascii a)%N
  end.
Proof.
  unfold Ascii.compare. destruct (N.compare_spec (N_of_ascii a) (N_of_ascii b)) as [H|H|H];
    [|done..].
  by rewrite <- (ascii_N_embedding a), <- (ascii_N_embedding b), H.
Qed.

Lemma string_compare_le_trans (a b c : string) :
  String.compare a b ≠ Gt → String.compare b c ≠ Gt → String.compare a c ≠ Gt.
Proof.
  revert b c. induction a as [|x a IH]; intros [|y b] [|z c]; cbn [String.compare];
    try done.
  pose proof (ascii_compare_cases x y) as Hxy.
  pose proof (ascii_compare_cases y z) as Hyz.
  pose proof (ascii_compare_cases x z) as Hxz.
  destruct (Ascii.compare x y), (Ascii.compare y z), (Ascii.compare x z);
    subst; try done; try lia; try apply IH.
Qed.

Lemma string_compare_gt_flip (a b : string) :
  String.compare a b = Gt → String.compare b a ≠ Gt.
Proof. rewrite (String.compare_antisym b a). by intros ->. Qed.

(** The default sort of strings: ascending by code units, same elements. *)
Lemma array_sort_pure_code_units (l : list string) :
  StronglySorted (λ a b, String.compare a b ≠ Gt)
    (array_sort_pure Js.code_unit_compare l)
  ∧ array_sort_pure Js.code_unit_compare l ≡ₚ l.
Proof.
  destruct (array_sort_ordered (λ a b, ret (Js.code_unit_compare a b))
              (λ a b, String.compare a b ≠ Gt) string_compare_le_trans l)
    as (r & Hr & Hsorted & Hperm).
  { intros x y _ _. eexists. split; [done|]. unfold Js.code_unit_compare.
    destruct (String.compare x y) eqn:Hc; split; intros ?; try done; try lia.
    by apply string_compare_gt_flip. }
  rewrite array_sort_pure_spec in Hr. by injection Hr as <-.
Qed.

(** ** The parsers of the engine *)

Section EngineParsers.
Import Js ToolExecutor.

Lemma indexOf_Some x arr j : indexOf x arr = Some j → arr !! j = Some x.
Proof.
  revert j. induction arr as [|y arr IH]; intros j; [done|]. cbn [indexOf].
  destruct (String.eqb_spec y x) as [->|Hne].
  - by intros [= <-].
  - destruct (indexOf x arr) as [k|]; [|done]. cbn. intros [= <-]. by apply IH.
Qed.

Lemma indexOf_elem x arr : x ∈ arr → is_Some (indexOf x arr).
Proof.
  induction 1 as [y arr|y z arr _ IH]; cbn [indexOf].
  - rewrite String.eqb_refl. by eexists.
  - destruct (String.eqb z y); [by eexists|]. destruct IH as [k ->]. by eexists.
Qed.

Lemma first_indices_elem arr i l y :
  y ∈ first_indices arr i l → y ∈ l ∧ ∃ j, (i ≤ j)%nat ∧ indexOf y arr = Some j.
Proof.
  revert i. induction l as [|x l IH]; intros i; [by intros ?%elem_of_nil|].
  cbn [first_indices]. case_bool_decide as Hx.
  - intros [->|Hy]%elem_of_cons.
    + split; [by left|]. by exists i.
    + destruct (IH _ Hy) as (? & j & ? & ?). split; [by right|].
      exists j. split; [lia|done].
  - intros Hy. destruct (IH _ Hy) as (? & j & ? & ?). split; [by right|].
    exists j. split; [lia|done].
Qed.

Lemma NoDup_first_indices arr i l : NoDup (first_indices arr i l).
Proof.
  revert i. induction l as [|x l IH]; intros i; [constructor|].
  cbn [first_indices]. case_bool_decide as Hx; [|apply IH].
  constructor; [|apply IH].
  intros (_ & j & Hj & Hidx)%first_indices_elem. rewrite Hx in Hidx.
  injection Hidx as <-. lia.
Qed.

Lemma first_indices_complete arr i l k x :
  l !! k = Some x → indexOf x arr = Some (i + k)%nat → x ∈ first_indices arr i l.
Proof.
  revert i k. induction l as [|y l IH]; intros i k; [done|].
  cbn [first_indices]. destruct k as [|k].
  - intros [= ->]. rewrite Nat.add_0_r. intros Hidx.
    rewrite bool_decide_eq_true_2 by done. by left.
  - intros Hk Hidx. assert (x ∈ first_indices arr (S i) l) as Hin.
    { apply (IH (S i) k Hk). by replace (S i + k)%nat with (i + S k)%nat by lia. }
    case_bool_decide; [by right|done].
Qed.

Lemma elem_of_first_indices arr x : x ∈ first_indices arr 0 arr ↔ x ∈ arr.
Proof.
  split; [by intros [? _]%first_indices_elem|].
  intros Hx. destruct (indexOf_elem x arr Hx) as [j Hj].
  apply (first_indices_complete arr 0 arr j); [by apply indexOf_Some|done].
Qed.
End EngineParsers.

(** X7.  The names [parseDomainsOutput] of the engine returns are pairwise
    different and in ascending order of code units; each consists of
    letters, digits, dots and hyphens only, is longer than three characters,
    contains a dot and the base domain, and neither begins nor ends with a
    dot. *)
Theorem engine_parseDomainsOutput_clean (output baseDomain : string) :
  let names := ToolExecutor.parseDomainsOutput output baseDomain in
  NoDup names
  ∧ StronglySorted (λ a b, String.compare a b ≠ Gt) names
  ∧ Forall (λ name,
      ResultProcessor.domainRegex_test name = true
      ∧ (3 < String.length name)%nat
      ∧ Js.includes "." name = true
      ∧ Js.includes baseDomain name = true
      ∧ Js.startsWith "." name = false
      ∧ Js.endsWith "." name = false) names.
Proof.
  unfold ToolExecutor.parseDomainsOutput.
  destruct (String.eqb output EmptyString);
    [split; [constructor|]; split; constructor|].
  cbv zeta.
  match goal with
  | |- context [array_sort_pure _ (ToolExecutor.first_indices ?d 0 ?d)] =>
      set (domains := d)
  end.
  destruct (array_sort_pure_code_units (ToolExecutor.first_indices domains 0 domains))
    as [Hsorted Hperm].
  split; [rewrite Hperm; apply NoDup_first_indices|].
  split; [exact Hsorted|].
  rewrite Hperm. apply Forall_forall. intros name Hname.
  apply (proj1 (elem_of_first_indices _ _)) in Hname. unfold domains in Hname.
  apply list_elem_of_fmap in Hname as (line & -> & [_ Hp]%elem_of_filter_bool).
  destruct (_ || _ || _ || _); [done|].
  destruct (_ || _ || _ || _ || _ || _); [done|].
  cbv zeta in Hp.
  repeat (apply andb_true_iff in Hp as [Hp ?]).
  split_and!; try done.
  - by apply Nat.ltb_lt.
  - match goal with H : (_ || _) = true |- _ => apply orb_true_iff in H as [H|H] end;
      [done|].
    by apply (endsWith_includes "."%char).
  - by apply negb_true_iff.
  - by apply negb_true_iff.
Qed.

(** ** Trimming and splitting *)

Section TrimSplit.
Import Js.

Lemma drop_while_split p s :
  ∃ l1, chars s = l1 ++ chars (drop_while p s)
        ∧ Forall (λ c, p c = true) l1
        ∧ ∀ c, head (chars (drop_while p s)) = Some c → p c = false.
Proof.
  induction s as [|c s (l1 & Hs & Hall & Hhead)]; cbn [drop_while].
  - by exists [].
  - destruct (p c) eqn:Hp.
    + exists (c :: l1). split; [|split; [by constructor|done]].
      change (chars (String c s)) with (c :: chars s). by rewrite Hs.
    + exists []. split; [done|]. split; [done|]. by intros d [= <-].
Qed.

Lemma drop_while_id p s :
  (∀ c, head (chars s) = Some c → p c = false) → drop_while p s = s.
Proof. destruct s as [|c s]; [done|]. intros H. cbn. by rewrite (H c eq_refl). Qed.

Lemma reverse_reverse s : reverse (reverse s) = s.
Proof. apply chars_inj. by rewrite !chars_reverse, reverse_involutive. Qed.

Lemma head_reverse {A} (l : list A) : head (list.reverse l) = last l.
Proof.
  induction l as [|x l IH] using rev_ind; [done|].
  by rewrite reverse_snoc, last_snoc.
Qed.

Lemma drop_while_end_split p s :
  ∃ l2, chars s = chars (drop_while_end p s) ++ l2
        ∧ Forall (λ c, p c = true) l2
        ∧ ∀ c, last (chars (drop_while_end p s)) = Some c → p c = false.
Proof.
  unfold drop_while_end.
  destruct (drop_while_split p (reverse s)) as (l1 & Hs & Hall & Hhead).
  exists (list.reverse l1). rewrite chars_reverse. split; [|split].
  - rewrite <- reverse_app, <- Hs, chars_reverse. by rewrite reverse_involutive.
  - by apply Forall_reverse.
  - intros c. rewrite <- head_reverse, reverse_involutive. apply Hhead.
Qed.

Lemma drop_while_end_id p s :
  (∀ c, last (chars s) = Some c → p c = false) → drop_while_end p s = s.
Proof.
  intros H. unfold drop_while_end. rewrite drop_while_id; [apply reverse_reverse|].
  intros c. rewrite chars_reverse, head_reverse. apply H.
Qed.

(** What [trim] leaves has no white space at either end and is a part of
    the string. *)
Lemma trim_ends s :
  (∀ c, head (chars (trim s)) = Some c → is_space c = false)
  ∧ (∀ c, last (chars (trim s)) = Some c → is_space c = false)
  ∧ ∃ l1 l2, chars s = l1 ++ chars (trim s) ++ l2.
Proof.
  unfold trim.
  destruct (drop_while_split is_space s) as (l1 & Hs & _ & Hhead).
  destruct (drop_while_end_split is_space (drop_while is_space s))
    as (l2 & Hu & _ & Hlast).
  split; [|split; [done|]].
  - intros c Hc. apply Hhead. rewrite Hu.
    destruct (chars (drop_while_end is_space (drop_while is_space s))); [done|].
    exact Hc.
  - exists l1, l2. by rewrite Hs, Hu.
Qed.

Lemma trim_id s :
  (∀ c, head (chars s) = Some c → is_space c = false) →
  (∀ c, last (chars s) = Some c → is_space c = false) →
  trim s = s.
Proof.
  intros Hhead Hlast. unfold trim. rewrite (drop_while_id _ _ Hhead).
  by apply drop_while_end_id.
Qed.

Lemma trim_trim s : trim (trim s) = trim s.
Proof. destruct (trim_ends s) as (Hh & Hl & _). by apply trim_id. Qed.

Lemma trim_chars s c : c ∈ chars (trim s) → c ∈ chars s.
Proof.
  destruct (trim_ends s) as (_ & _ & l1 & l2 & ->). intros Hc.
  apply elem_of_app. right. apply elem_of_app. by left.
Qed.

(** The pieces of [split] do not contain the separator. *)
Lemma split_acc_no_sep sep cur s piece :
  sep ∉ chars cur → piece ∈ split_acc sep cur s → sep ∉ chars piece.
Proof.
  revert cur. induction s as [|c s IH]; intros cur Hcur; cbn [split_acc].
  - intros ->%list_elem_of_singleton. rewrite chars_reverse.
    by rewrite elem_of_reverse.
  - destruct (Ascii.eqb_spec c sep) as [->|Hne].
    + intros [->|Hp]%elem_of_cons.
      * rewrite chars_reverse. by rewrite elem_of_reverse.
      * apply (IH EmptyString); [by intros ?%elem_of_nil|done].
    + apply IH. change (chars (String c cur)) with (c :: chars cur).
      intros [?|?]%elem_of_cons; [congruence|done].
Qed.

Lemma split_no_sep sep s piece : piece ∈ split sep s → sep ∉ chars piece.
Proof. apply split_acc_no_sep. by intros ?%elem_of_nil. Qed.

(** Splitting what [join] has put together. *)
Lemma split_acc_piece sep cur p :
  sep ∉ chars p → split_acc sep cur p = [rev_onto cur p].
Proof.
  revert cur. induction p as [|c p IH]; intros cur Hp; cbn [split_acc].
  - done.
  - change (chars (String c p)) with (c :: chars p) in Hp.
    apply not_elem_of_cons in Hp as [Hne Hp].
    destruct (Ascii.eqb_spec c sep) as [->|_]; [done|].
    by rewrite IH.
Qed.

Lemma split_acc_app sep cur p rest :
  sep ∉ chars p →
  split_acc sep cur (p ++ String sep rest)%string
  = rev_onto cur p :: split_acc sep EmptyString rest.
Proof.
  revert cur. induction p as [|c p IH]; intros cur Hp.
  - change (EmptyString ++ String sep rest)%string with (String sep rest).
    cbn [split_acc]. by rewrite Ascii.eqb_refl.
  - change (chars (String c p)) with (c :: chars p) in Hp.
    apply not_elem_of_cons in Hp as [Hne Hp].
    change (String c p ++ String sep rest)%string
      with (String c (p ++ String sep rest)).
    cbn [split_acc]. destruct (Ascii.eqb_spec c sep) as [->|_]; [done|].
    by rewrite IH.
Qed.

Lemma split_join sep (l : list string) :
  l ≠ [] → Forall (λ p, sep ∉ chars p) l →
  split sep (join (String sep EmptyString) l) = l.
Proof.
  intros Hne Hall. unfold split. induction Hall as [|p l Hp Hall IH]; [done|].
  destruct l as [|q l].
  - cbn [join]. by rewrite split_acc_piece.
  - change (join (String sep EmptyString) (p :: q :: l))
      with (p ++ String sep EmptyString ++ join (String sep EmptyString) (q :: l))%string.
    change (String sep EmptyString ++ ?x)%string with (String sep x).
    rewrite split_acc_app by done. cbn [rev_onto]. f_equal. by apply IH.
Qed.
End TrimSplit.

(** X8.  Every line [parseTextOutput] returns is not empty, has no white
    space at either end and contains no line feed. *)
Theorem parseTextOutput_lines_are_clean (output : string) :
  Forall clean_line (ResultProcessor.parseTextOutput output).
Proof.
  unfold ResultProcessor.parseTextOutput.
  destruct (String.eqb output EmptyString); [constructor|].
  apply Forall_forall. intros line [Hin Hlen]%elem_of_filter_bool.
  unfold ResultProcessor.lines in Hin.
  apply list_elem_of_fmap in Hin as (piece & -> & Hpiece).
  split; [|split].
  - intros Heq. rewrite Heq in Hlen. done.
  - apply trim_trim.
  - intros Hlf%trim_chars. by apply (split_no_sep _ _ _ Hpiece).
Qed.

(** X9.  Formatting clean lines as text and parsing the text gives the
    lines back; so formatting and parsing again what [parseTextOutput]
    returned changes nothing. *)
Theorem parseTextOutput_formatResults_text (stringify : list string → string)
    (results : list string) :
  Forall clean_line results →
  ResultProcessor.parseTextOutput (formatResults stringify results "text") = results.
Proof.
  intros Hclean.
  change (formatResults stringify results "text")
    with (Js.join (String Js.LF EmptyString) results).
  destruct results as [|r results]; [done|].
  unfold ResultProcessor.parseTextOutput, ResultProcessor.lines.
  rewrite split_join; [|done|].
  2:{ eapply Forall_impl; [exact Hclean|]. by intros ? (_ & _ & ?). }
  assert (Js.join (String Js.LF EmptyString) (r :: results) ≠ EmptyString) as Hne.
  { apply Forall_cons in Hclean as [(Hr & _) _].
    destruct r as [|c r]; [done|]. by destruct results. }
  rewrite (proj2 (String.eqb_neq _ _) Hne).
  assert (Js.trim <$> (r :: results) = r :: results) as ->.
  { clear Hne. induction Hclean as [|x l (_ & Hx & _) _ IH]; [done|].
    by rewrite fmap_cons, Hx, IH. }
  apply filter_all_true. eapply Forall_impl; [exact Hclean|].
  intros x (Hx & _). destruct x; [done|]. done.
Qed.

Lemma parseTextOutput_formatResults_text_witness :
  ResultProcessor.parseTextOutput
    (formatResults (λ _, EmptyString) ["www.example.com"; "10 mail.example.com"] "text")
  = ["www.example.com"; "10 mail.example.com"].
Proof.
  apply (parseTextOutput_formatResults_text (λ _, EmptyString)
           ["www.example.com"; "10 mail.example.com"]).
  repeat constructor; try discriminate;
    apply (bool_decide_unpack _); by vm_compute.
Defined.

(** ** Names inherited from [Object.prototype] *)

(** X10.  A tool name that every object inherits (toString, constructor,
    __proto__, ...) is not reported as unknown: the look-up in the table
    finds the inherited value, the inputs are validated, and [runTool] then
    fails on the missing argument list before any process is spawned or
    any file touched. *)
Theorem inherited_tool_name_fails_late (resultsDir : string) (w : ToolWorld)
    (tool domain : string) (parent : option string) (fs : FS) :
  tool ∈ ToolExecutor.inherited_names →
  ToolExecutor.validateInputs tool domain = inr tt →
  ToolExecutor.getToolConfiguration tool = inr ToolExecutor.inherited_value
  ∧ ToolExecutor.executeSingleTool resultsDir w tool domain parent fs
    = (ToolExecutor.failed w tool domain parent
         "Cannot read properties of undefined (reading 'map')", fs).
Proof.
  intros Hin Hvalid.
  assert (ToolExecutor.getToolConfiguration tool = inr ToolExecutor.inherited_value)
    as Hconfig.
  { unfold ToolExecutor.inherited_names in Hin.
    repeat (apply elem_of_cons in Hin as [->|Hin]; [by vm_compute|]).
    by apply elem_of_nil in Hin. }
  split; [exact Hconfig|].
  unfold ToolExecutor.executeSingleTool, ToolExecutor.executeSingleTool_try.
  by rewrite Hconfig, Hvalid.
Qed.

Lemma inherited_tool_name_fails_late_witness :
  tr_error (ToolExecutor.executeSingleTool example_dir
              (example_tool_world os_empty_file) "toString" "example.com"
              None ∅).1
  = Some "Cannot read properties of undefined (reading 'map')".
Proof.
  destruct (inherited_tool_name_fails_late example_dir
              (example_tool_world os_empty_file) "toString" "example.com" None ∅)
    as [_ ->].
  - apply (bool_decide_unpack _). by vm_compute.
  - reflexivity.
  - reflexivity.
Defined.

(** ** The batches *)

Section BatchShape.
Import ToolExecutor.

Lemma batches_from_slices (tools : list string) (batchSize : nat) fuel i batches :
  batches_from fuel tools batchSize i = Some batches →
  ∀ k batch, batches !! k = Some batch →
    batch = take batchSize (drop (i + k * batchSize) tools)
    ∧ (i + k * batchSize < length tools)%nat.
Proof.
  revert i batches. induction fuel as [|fuel IH]; intros i batches;
    cbn [batches_from].
  - destruct (i <? length tools)%nat; [done|]. by intros [= <-] k batch.
  - destruct (Nat.ltb_spec i (length tools)) as [Hlt|Hge];
      [|by intros [= <-] k batch].
    destruct (batches_from fuel tools batchSize (i + batchSize)) as [rest|] eqn:Hrest;
      [|done].
    cbn. intros [= <-] [|k] batch.
    + intros [= <-]. by rewrite Nat.add_0_r.
    + intros Hk. destruct (IH _ _ Hrest k batch Hk) as [-> Hlt'].
      replace (i + S k * batchSize)%nat with (i + batchSize + k * batchSize)%nat
        by lia.
      done.
Qed.

Lemma batches_from_count (tools : list string) (batchSize : nat) fuel i batches :
  (0 < batchSize)%nat →
  batches_from fuel tools batchSize i = Some batches →
  length batches = ((length tools - i + batchSize - 1) / batchSize)%nat.
Proof.
  intros Hpos. revert i batches. induction fuel as [|fuel IH]; intros i batches;
    cbn [batches_from].
  - destruct (Nat.ltb_spec i (length tools)) as [Hlt|Hge]; [done|].
    intros [= <-]. symmetry. apply Nat.div_small. lia.
  - destruct (Nat.ltb_spec i (length tools)) as [Hlt|Hge].
    + destruct (batches_from fuel tools batchSize (i + batchSize)) as [rest|] eqn:Hrest;
        [|done].
      cbn. intros [= <-]. cbn [length]. rewrite (IH _ _ Hrest).
      destruct (Nat.le_gt_cases (length tools - i) batchSize) as [Hle|Hgt].
      * replace (length tools - (i + batchSize))%nat with 0%nat by lia.
        rewrite (Nat.div_small (0 + batchSize - 1)) by lia.
        apply (Nat.div_unique _ _ _ (length tools - i - 1)%nat); lia.
      * replace (length tools - i + batchSize - 1)%nat
          with ((length tools - (i + batchSize) + batchSize - 1) + 1 * batchSize)%nat
          by lia.
        rewrite Nat.div_add by lia. lia.
    + intros [= <-]. symmetry. apply Nat.div_small. lia.
Qed.
End BatchShape.

(** X11.  With a positive limit [createConcurrentBatches] cuts the request
    into ceil(n / b) batches, where n is the number of tools and b the
    smaller of n and [maxConcurrent]; batch number k is the slice from
    k * b of length b (shorter only at the end of the request). *)
Theorem createConcurrentBatches_slices (maxConcurrent : nat) (tools : list string) :
  (0 < maxConcurrent)%nat →
  let b := Nat.min maxConcurrent (length tools) in
  ∃ batches,
    ToolExecutor.createConcurrentBatches maxConcurrent tools = Some batches
    ∧ (tools ≠ [] → length batches = ((length tools + b - 1) / b)%nat)
    ∧ ∀ k batch, batches !! k = Some batch →
        batch = take b (drop (k * b) tools) ∧ (k * b < length tools)%nat.
Proof.
  intros Hpos b.
  destruct (createConcurrentBatches_partition maxConcurrent tools Hpos)
    as (batches & Hb & _ & _).
  exists batches. split; [exact Hb|]. unfold ToolExecutor.createConcurrentBatches in Hb.
  fold b in Hb. split.
  - intros Hne.
    assert (0 < b)%nat as Hb0
      by (unfold b; destruct tools; [done|cbn [length]; lia]).
    rewrite (batches_from_count tools b _ _ _ Hb0 Hb).
    by rewrite Nat.sub_0_r.
  - intros k batch Hk.
    by destruct (batches_from_slices _ _ _ _ _ Hb k batch Hk) as [-> ?].
Qed.

Lemma createConcurrentBatches_slices_witness :
  ToolExecutor.createConcurrentBatches 2 ["a"; "b"; "c"] = Some [["a"; "b"]; ["c"]].
Proof.
  destruct (createConcurrentBatches_slices 2 ["a"; "b"; "c"] ltac:(lia))
    as (batches & -> & Hlen & Hslices).
  specialize (Hlen ltac:(done)). cbn in Hlen.
  destruct batches as [|b0 [|b1 [|]]]; try discriminate Hlen.
  destruct (Hslices 0%nat b0 eq_refl) as [-> _].
  destruct (Hslices 1%nat b1 eq_refl) as [-> _].
  reflexivity.
Defined.

(** X12.  With the limit 0 the loop of [createConcurrentBatches] does not
    end on a request that names a tool, however many iterations it is
    given, and [executeTools] does not return. *)
Theorem executeTools_never_returns_with_limit_0 (w : World) (domain : string)
    (tools : list string) (fs : FS) :
  tools ≠ [] →
  (∀ fuel, ToolExecutor.batches_from fuel tools (Nat.min 0 (length tools)) 0 = None)
  ∧ ToolExecutor.executeTools 0 w domain (Some tools) fs = None.
Proof.
  intros Hne. split.
  - intros fuel. by apply createConcurrentBatches_diverges.
  - unfold ToolExecutor.executeTools, ToolExecutor.executeMultipleTools,
      ToolExecutor.createConcurrentBatches.
    by rewrite createConcurrentBatches_diverges.
Qed.

Lemma executeTools_never_returns_with_limit_0_witness :
  ToolExecutor.executeTools 0 example_world "example.com" (Some ["dig"]) ∅ = None.
Proof.
  apply (executeTools_never_returns_with_limit_0 example_world "example.com" ["dig"] ∅).
  discriminate.
Defined.

(** ** A process that closes *)



(** ** What [validateInputs] lets through *)

Section EngineValidate.
Import Js ToolExecutor.

Lemma split_acc_chars sep cur s c :
  c ∈ chars cur ∨ c ∈ chars s →
  c = sep ∨ ∃ piece, piece ∈ split_acc sep cur s ∧ c ∈ chars piece.
Proof.
  revert cur. induction s as [|d s IH]; intros cur; cbn [split_acc].
  - intros [Hc|Hc]; [|by apply elem_of_nil in Hc].
    right. exists (reverse cur). split; [apply list_elem_of_here|].
    rewrite chars_reverse. by apply elem_of_reverse.
  - change (chars (String d s)) with (d :: chars s).
    destruct (Ascii.eqb_spec d sep) as [->|Hne].
    + intros [Hc|[->|Hc]%elem_of_cons]; [|by left|].
      * right. exists (reverse cur). split; [apply list_elem_of_here|].
        rewrite chars_reverse. by apply elem_of_reverse.
      * destruct (IH EmptyString (or_intror Hc)) as [->|(piece & Hp & Hcp)];
          [by left|].
        right. exists piece. split; [by apply list_elem_of_further|done].
    + intros Hc. apply IH.
      change (chars (String d cur)) with (d :: chars cur).
      destruct Hc as [Hc|[->|Hc]%elem_of_cons].
      * left. by apply list_elem_of_further.
      * left. apply list_elem_of_here.
      * by right.
Qed.

Lemma split_acc_double sep cur s :
  includes (String sep (String sep EmptyString)) s = true →
  EmptyString ∈ split_acc sep cur s.
Proof.
  revert cur. induction s as [|d s IH]; intros cur; [done|].
  cbn [includes]. intros [Hstart|Hin]%orb_true_iff.
  - cbn [startsWith] in Hstart. apply andb_true_iff in Hstart as [Hd Hstart].
    apply Ascii.eqb_eq in Hd as <-.
    destruct s as [|e s]; [done|].
    apply andb_true_iff in Hstart as [He _]. apply Ascii.eqb_eq in He as <-.
    cbn [split_acc]. rewrite Ascii.eqb_refl.
    apply list_elem_of_further, list_elem_of_here.
  - cbn [split_acc]. destruct (Ascii.eqb d sep).
    + apply list_elem_of_further. by apply IH.
    + by apply IH.
Qed.

Lemma label_test_chars piece :
  label_test piece = true →
  piece ≠ EmptyString
  ∧ Forall (λ c, is_alnum c || is_char 45 c = true) (chars piece).
Proof.
  destruct piece as [|c piece]; [done|]. unfold label_test.
  intros [_ Hall]%andb_true_iff. split; [done|]. by apply all_chars_Forall.
Qed.

Lemma host_char_harmless c :
  host_char c = true → shell_char c = false ∧ is_char 0 c = false ∧ is_space c = false.
Proof.
  destruct c as [[] [] [] [] [] [] [] []]; vm_compute; by intros.
Qed.

Lemma domainRegex_test_chars domain :
  domainRegex_test domain = true →
  Forall (λ c, host_char c = true) (chars domain)
  ∧ includes ".." domain = false.
Proof.
  unfold domainRegex_test. intros Hall.
  assert (∀ piece, piece ∈ split "." domain → label_test piece = true) as Hlabels.
  { intros piece Hp. apply list_elem_of_In in Hp.
    by apply (proj1 (forallb_forall _ _) Hall). }
  split.
  - apply Forall_forall. intros c Hc.
    destruct (split_acc_chars "." EmptyString domain c (or_intror Hc))
      as [->|(piece & Hp & Hcp)]; [done|].
    destruct (label_test_chars piece (Hlabels _ Hp)) as [_ Hchars].
    unfold host_char. rewrite (proj1 (Forall_forall _ _) Hchars c Hcp). done.
  - destruct (includes ".." domain) eqn:Hdd; [|done].
    apply (split_acc_double "." EmptyString) in Hdd.
    by specialize (Hlabels _ Hdd).
Qed.

Lemma host_chars_not_malicious s :
  Forall (λ c, host_char c = true) (chars s) →
  includes ".." s = false →
  malicious s = false.
Proof.
  intros Hchars Hdd. unfold malicious. rewrite Hdd.
  assert (∀ p, (∀ c, host_char c = true → p c = false) → has_char p s = false)
    as Hnone.
  { intros p Hp. destruct (has_char p s) eqn:Hhas; [|done].
    apply has_char_elem in Hhas as (c & Hc & Hpc).
    by rewrite (Hp c (proj1 (Forall_forall _ _) Hchars c Hc)) in Hpc. }
  rewrite !Hnone; [done|..]; intros c Hc; by apply host_char_harmless.
Qed.
End EngineValidate.

(** X14.  A domain that [validateInputs] accepts consists of letters,
    digits, hyphens and dots only, and holds no two dots in a row. *)
Theorem validateInputs_accepts_host_names_only (tool domain : string) :
  ToolExecutor.validateInputs tool domain = inr tt →
  domain ≠ EmptyString
  ∧ Forall (λ c, host_char c = true) (chars domain)
  ∧ Js.includes ".." domain = false
  ∧ ToolExecutor.malicious tool = false.
Proof.
  unfold ToolExecutor.validateInputs.
  destruct (String.eqb tool EmptyString); [done|].
  destruct (String.eqb_spec domain EmptyString) as [|Hne]; [done|].
  destruct (ToolExecutor.domainRegex_test domain) eqn:Hregex; [|done].
  destruct (domainRegex_test_chars domain Hregex) as [Hchars Hdd].
  rewrite (host_chars_not_malicious domain Hchars Hdd). cbn.
  destruct (ToolExecutor.malicious tool); [done|]. by intros _.
Qed.

Lemma validateInputs_accepts_host_names_only_witness :
  Js.includes ".." "api.example.com" = false.
Proof.
  apply (validateInputs_accepts_host_names_only "subfinder" "api.example.com").
  reflexivity.
Defined.

(** X15.  The search of the domain for malicious patterns never finds
    anything, since the domain has matched the domain expression before:
    when [validateInputs] throws 'Potentially malicious input detected',
    the pattern is in the tool name. *)
Theorem malicious_input_is_the_tool_name (tool domain : string) :
  ToolExecutor.validateInputs tool domain
    = inl "Potentially malicious input detected" →
  ToolExecutor.malicious tool = true ∧ ToolExecutor.malicious domain = false.
Proof.
  unfold ToolExecutor.validateInputs.
  destruct (String.eqb tool EmptyString); [done|].
  destruct (String.eqb domain EmptyString); [done|].
  destruct (ToolExecutor.domainRegex_test domain) eqn:Hregex; [|done].
  destruct (domainRegex_test_chars domain Hregex) as [Hchars Hdd].
  rewrite (host_chars_not_malicious domain Hchars Hdd). cbn.
  by destruct (ToolExecutor.malicious tool).
Qed.

Lemma malicious_input_is_the_tool_name_witness :
  ToolExecutor.malicious "dig;id" = true.
Proof.
  apply (malicious_input_is_the_tool_name "dig;id" "example.com").
  reflexivity.
Defined.

(** ** The validation middleware *)

Section Middleware.
Import Js ToolExecutor validator.

Lemma rev_onto_map_chars f s acc :
  rev_onto (map_chars f s) (map_chars f acc) = map_chars f (rev_onto s acc).
Proof.
  revert acc. induction s as [|c s IH]; intros acc; [done|].
  cbn [map_chars rev_onto]. by rewrite <- IH.
Qed.

Lemma reverse_map_chars f s : reverse (map_chars f s) = map_chars f (reverse s).
Proof. apply (rev_onto_map_chars f s EmptyString). Qed.

Lemma split_acc_map_chars f sep cur s :
  (∀ c, Ascii.eqb (f c) sep = Ascii.eqb c sep) →
  split_acc sep (map_chars f cur) (map_chars f s)
  = map_chars f <$> split_acc sep cur s.
Proof.
  intros Hsep. revert cur. induction s as [|c s IH]; intros cur;
    cbn [map_chars split_acc].
  - by rewrite reverse_map_chars.
  - rewrite Hsep. destruct (Ascii.eqb c sep).
    + rewrite fmap_cons, reverse_map_chars. f_equal. apply (IH EmptyString).
    + apply (IH (String c cur)).
Qed.

Lemma lower_char_dot c : Ascii.eqb (lower_char c) "." = Ascii.eqb c ".".
Proof. destruct c as [[] [] [] [] [] [] [] []]; by vm_compute. Qed.

Lemma lower_char_label c :
  (is_alnum c = true → is_alnum (lower_char c) = true)
  ∧ (is_alnum c || is_char 45 c = true
     → is_alnum (lower_char c) || is_char 45 (lower_char c) = true)
  ∧ (tool_name_char c = true → tool_name_char (lower_char c) = true).
Proof. destruct c as [[] [] [] [] [] [] [] []]; by vm_compute. Qed.

Lemma all_chars_map_chars (p q : ascii → bool) f s :
  (∀ c, p c = true → q (f c) = true) →
  all_chars p s = true → all_chars q (map_chars f s) = true.
Proof.
  intros Hpq. induction s as [|c s IH]; [done|]. cbn [all_chars map_chars].
  intros [Hc Hs]%andb_true_iff. by rewrite (Hpq c Hc), IH.
Qed.

Lemma label_test_toLowerCase piece :
  label_test piece = true → label_test (toLowerCase piece) = true.
Proof.
  destruct piece as [|c piece]; [done|]. unfold toLowerCase.
  cbn [map_chars]. unfold label_test.
  change (String (lower_char c) (map_chars lower_char piece))
    with (map_chars lower_char (String c piece)).
  rewrite reverse_map_chars, length_map_chars.
  intros [[[Hlen Hfirst]%andb_true_iff Hlast]%andb_true_iff Hall]%andb_true_iff.
  rewrite Hlen, (proj1 (lower_char_label c) Hfirst).
  rewrite (all_chars_map_chars _ (λ x, is_alnum x || is_char 45 x) lower_char _
             (λ x, proj1 (proj2 (lower_char_label x))) Hall).
  destruct (reverse (String c piece)) as [|d r]; [done|].
  cbn [map_chars]. by rewrite (proj1 (lower_char_label d) Hlast).
Qed.

Lemma engine_domainRegex_test_toLowerCase domain :
  domainRegex_test domain = true → domainRegex_test (toLowerCase domain) = true.
Proof.
  unfold domainRegex_test, split, toLowerCase. intros Hall.
  change (forallb label_test
            (split_acc "." (map_chars lower_char EmptyString)
               (map_chars lower_char domain)) = true).
  rewrite (split_acc_map_chars lower_char "." EmptyString domain lower_char_dot).
  apply forallb_forall. intros piece Hp.
  apply list_elem_of_In, list_elem_of_fmap in Hp as (piece' & -> & Hp).
  apply label_test_toLowerCase.
  apply (proj1 (forallb_forall _ _) Hall). by apply list_elem_of_In.
Qed.

Lemma trim_no_space (p : ascii → bool) s :
  (∀ c, p c = true → is_space c = false) →
  Forall (λ c, p c = true) (chars s) → trim s = s.
Proof.
  intros Hp Hall. apply trim_id; intros c Hc; apply Hp;
    apply (proj1 (Forall_forall _ _) Hall).
  - by apply head_Some_elem_of.
  - by apply last_Some_elem_of.
Qed.

Lemma tool_name_char_harmless c :
  tool_name_char c = true →
  shell_char c = false ∧ is_char 0 c = false ∧ is_space c = false
  ∧ Ascii.eqb c "." = false.
Proof. destruct c as [[] [] [] [] [] [] [] []]; vm_compute; by intros. Qed.

Lemma validateDomain_returns domain d :
  validateDomain domain = inr d →
  ∃ s, domain = VStr s ∧ d = toLowerCase s
       ∧ (String.length s ≤ 253)%nat
       ∧ domainRegex_test s = true.
Proof.
  destruct domain as [s|cls]; [|done]. cbn [validateDomain].
  destruct (String.eqb s EmptyString); [done|].
  destruct (Nat.ltb_spec 253 (String.length s)) as [|Hlen]; [done|].
  unfold DOMAIN_REGEX_test.
  destruct (domainRegex_test s) eqn:Hregex; [|done]. cbn [negb].
  destruct (malicious s); [done|]. intros [= <-].
  exists s. split; [done|]. split; [|done].
  apply (trim_no_space host_char); [intros c Hc; by apply host_char_harmless|].
  by apply domainRegex_test_chars, engine_domainRegex_test_toLowerCase.
Qed.

Lemma validateToolName_returns tool t :
  validateToolName tool = inr t →
  ∃ s, tool = VStr s ∧ t = toLowerCase s
       ∧ s ≠ EmptyString ∧ (String.length s ≤ 50)%nat
       ∧ all_chars tool_name_char s = true.
Proof.
  destruct tool as [s|cls]; [|done]. cbn [validateToolName].
  destruct (String.eqb_spec s EmptyString) as [|Hne]; [done|].
  destruct (Nat.ltb_spec 50 (String.length s)) as [|Hlen]; [done|].
  unfold TOOL_NAME_REGEX_test.
  destruct (String.eqb s EmptyString); [done|]. cbn [negb andb].
  destruct (all_chars tool_name_char s) eqn:Hall; [|done]. intros [= <-].
  exists s. split; [done|]. split; [|done].
  apply (trim_no_space tool_name_char);
    [intros c Hc; by apply tool_name_char_harmless|].
  apply all_chars_Forall. unfold toLowerCase.
  apply (all_chars_map_chars tool_name_char tool_name_char); [|done].
  intros c. apply lower_char_label.
Qed.

Lemma lower_char_idem c : lower_char (lower_char c) = lower_char c.
Proof. destruct c as [[] [] [] [] [] [] [] []]; by vm_compute. Qed.

Lemma toLowerCase_idem s : toLowerCase (toLowerCase s) = toLowerCase s.
Proof.
  unfold toLowerCase. induction s as [|c s IH]; [done|].
  cbn [map_chars]. by rewrite lower_char_idem, IH.
Qed.

Lemma tool_name_not_malicious t :
  all_chars tool_name_char t = true → malicious t = false.
Proof.
  intros Hall%all_chars_Forall. unfold malicious.
  assert (∀ p, (∀ c, tool_name_char c = true → p c = false) → has_char p t = false)
    as Hnone.
  { intros p Hp. destruct (has_char p t) eqn:Hhas; [|done].
    apply has_char_elem in Hhas as (c & Hc & Hpc).
    by rewrite (Hp c (proj1 (Forall_forall _ _) Hall c Hc)) in Hpc. }
  rewrite !Hnone; try (intros c Hc; by apply tool_name_char_harmless).
  destruct (includes ".." t) eqn:Hdd; [|done].
  assert ("."%char ∈ chars t) as Hdot
    by (apply (includes_chars ".." t); [done|apply list_elem_of_here]).
  by destruct (tool_name_char_harmless _ (proj1 (Forall_forall _ _) Hall _ Hdot))
    as (_ & _ & _ & ?).
Qed.
End Middleware.

(** X16.  What [validateDomain] of the middleware returns is the lower-case
    form of the name it was given (trimming changes nothing), and it is a
    fixed point: validating it again returns it unchanged.  The search for
    malicious patterns never throws. *)
Theorem validateDomain_canonical (domain : value) (d : string) :
  validator.validateDomain domain = inr d →
  (∃ s, domain = VStr s ∧ d = Js.toLowerCase s)
  ∧ validator.validateDomain (VStr d) = inr d
  ∧ ∀ v, validator.validateDomain v ≠ inl "Potentially malicious domain detected".
Proof.
  intros Hd. destruct (validateDomain_returns domain d Hd)
    as (s & -> & -> & Hlen & Hregex).
  split; [by exists s|]. split.
  - assert (ToolExecutor.domainRegex_test (Js.toLowerCase s) = true) as Hlow
      by by apply engine_domainRegex_test_toLowerCase.
    destruct (domainRegex_test_chars _ Hlow) as [Hchars Hdd].
    cbn [validator.validateDomain]. unfold validator.DOMAIN_REGEX_test.
    rewrite Hlow, (host_chars_not_malicious _ Hchars Hdd). cbn [negb].
    destruct (String.eqb_spec (Js.toLowerCase s) EmptyString) as [He|_].
    { by rewrite He in Hlow. }
    replace (String.length (Js.toLowerCase s)) with (String.length s)
      by (symmetry; apply length_map_chars).
    destruct (Nat.ltb_spec 253 (String.length s)) as [|_]; [lia|].
    f_equal. rewrite toLowerCase_idem.
    apply (trim_no_space host_char); [intros c Hc; by apply host_char_harmless|done].
  - intros [v|cls]; [|done]. cbn [validator.validateDomain].
    destruct (String.eqb v EmptyString); [done|].
    destruct (253 <? String.length v)%nat; [done|].
    unfold validator.DOMAIN_REGEX_test.
    destruct (ToolExecutor.domainRegex_test v) eqn:Hv; [|done].
    destruct (domainRegex_test_chars _ Hv) as [Hchars Hdd].
    by rewrite (host_chars_not_malicious _ Hchars Hdd).
Qed.

Lemma validateDomain_canonical_witness :
  validator.validateDomain (VStr "api.example.com") = inr "api.example.com".
Proof.
  apply (validateDomain_canonical (VStr "API.Example.com") "api.example.com").
  reflexivity.
Defined.

Lemma validated_pair_passes (domain tool : value) (d t : string) :
  validator.validateDomain domain = inr d →
  validator.validateToolName tool = inr t →
  ToolExecutor.validateInputs t d = inr tt.
Proof.
  intros (s & _ & -> & _ & Hregex)%validateDomain_returns
         (n & _ & -> & Hne & _ & Hall)%validateToolName_returns.
  apply engine_domainRegex_test_toLowerCase in Hregex.
  destruct (domainRegex_test_chars _ Hregex) as [Hchars Hdd].
  unfold ToolExecutor.validateInputs.
  destruct (String.eqb_spec (Js.toLowerCase n) EmptyString) as [He|_].
  { destruct n; [done|discriminate He]. }
  destruct (String.eqb_spec (Js.toLowerCase s) EmptyString) as [He|_].
  { by rewrite He in Hregex. }
  rewrite Hregex, (host_chars_not_malicious _ Hchars Hdd). cbn [negb orb].
  rewrite tool_name_not_malicious; [done|].
  apply (all_chars_map_chars validator.tool_name_char validator.tool_name_char);
    [|done].
  intros c. apply lower_char_label.
Qed.

(** X17.  A domain and a tool name that the middleware has validated pass
    [validateInputs] of the engine. *)
Theorem validated_inputs_pass_validateInputs (domain tool : value) (d t : string) :
  validator.validateDomain domain = inr d →
  validator.validateToolName tool = inr t →
  ToolExecutor.validateInputs t d = inr tt.
Proof. apply validated_pair_passes. Qed.

Lemma validated_inputs_pass_validateInputs_witness :
  ToolExecutor.validateInputs "sub_finder-2" "api.example.com" = inr tt.
Proof.
  apply (validated_inputs_pass_validateInputs
           (VStr "API.Example.com") (VStr "Sub_Finder-2")); reflexivity.
Defined.

Lemma map_validateToolName_returns (tools : list value) (names : list string) :
  validator.map_validateToolName tools = inr names →
  Forall2 (λ tool name, validator.validateToolName tool = inr name) tools names.
Proof.
  revert names. induction tools as [|tool tools IH]; intros names;
    cbn [validator.map_validateToolName].
  - intros [= <-]. constructor.
  - destruct (validator.validateToolName tool) as [?|name] eqn:Hname; [done|].
    cbn. destruct (validator.map_validateToolName tools) as [?|rest]; [done|].
    cbn. intros [= <-]. constructor; [done|]. by apply IH.
Qed.

(** X18.  What [validateToolArray] returns has as many names as the array it
    was given, between 1 and 20; each is the lower-case form of the entry at
    its position, and each passes [validateInputs] of the engine together
    with a validated domain. *)
Theorem validateToolArray_returns (tools : option (list value))
    (names : list string) (domain : value) (d : string) :
  validator.validateToolArray tools = inr names →
  validator.validateDomain domain = inr d →
  ∃ l, tools = Some l
       ∧ (1 ≤ length l ≤ 20)%nat
       ∧ Forall2 (λ tool name, ∃ s, tool = VStr s ∧ name = Js.toLowerCase s) l names
       ∧ Forall (λ name, ToolExecutor.validateInputs name d = inr tt) names.
Proof.
  intros Hnames Hd. destruct tools as [l|]; [|done]. exists l.
  cbn [validator.validateToolArray] in Hnames.
  destruct (Nat.eqb_spec (length l) 0) as [|Hne]; [done|].
  destruct (Nat.ltb_spec 20 (length l)) as [|Hle]; [done|].
  apply map_validateToolName_returns in Hnames.
  split; [done|]. split; [lia|]. split.
  - eapply Forall2_impl; [exact Hnames|]. cbn.
    intros tool name (s & -> & -> & _)%validateToolName_returns. by exists s.
  - apply Forall_forall. intros name Hname.
    destruct (proj1 (list_elem_of_lookup _ _) Hname) as [k Hk].
    destruct (Forall2_lookup_r _ _ _ _ _ Hnames Hk) as (tool & _ & Htool).
    by apply (validated_pair_passes domain tool).
Qed.

Lemma validateToolArray_returns_witness :
  ∃ l, Some [VStr "Dig"; VStr "nslookup"] = Some l
       ∧ (1 ≤ length l ≤ 20)%nat
       ∧ Forall2 (λ tool name, ∃ s, tool = VStr s ∧ name = Js.toLowerCase s)
           l ["dig"; "nslookup"]
       ∧ Forall (λ name, ToolExecutor.validateInputs name "example.com" = inr tt)
           ["dig"; "nslookup"].
Proof.
  apply (validateToolArray_returns (Some [VStr "Dig"; VStr "nslookup"])
           ["dig"; "nslookup"] (VStr "example.com") "example.com");
    reflexivity.
Defined.

(** ** The controller's summary *)

Section ControllerFacts.
Import ToolExecutor.
Variable w : World.
Variable domain : string.

Lemma executeSingleTool_count_or_0 resultsDir tw tool parent fs :
  let r := (executeSingleTool resultsDir tw tool domain parent fs).1 in
  default 0%nat (tr_count r) = length (tr_results r).
Proof.
  cbn zeta.
  destruct (tr_success (executeSingleTool resultsDir tw tool domain parent fs).1)
    eqn:Hsuccess.
  - by rewrite (executeSingleTool_success_count _ _ _ _ _ _ Hsuccess).
  - by destruct (executeSingleTool_failure_shape _ _ _ _ _ _ Hsuccess) as [-> ->].
Qed.

Lemma run_batch_counts index (batch : list string) fs :
  Forall (λ r, default 0%nat (tr_count r) = length (tr_results r))
    (pushed <$> (run_batch w domain index batch fs).1).
Proof.
  revert index fs. induction batch as [|tool batch IH]; intros index fs.
  - constructor.
  - cbn [run_batch].
    pose proof (executeSingleTool_count_or_0 (w_resultsDir w) (w_tool w index)
                  tool (Some (w_executionId w)) fs) as Hr.
    destruct (executeSingleTool _ _ _ _ _ _) as [r fs1].
    specialize (IH (S index) fs1).
    destruct (run_batch w domain (S index) batch fs1) as [s fs2].
    cbn in *. by constructor.
Qed.

Lemma foldl_add_ext {A} (f g : A → nat) (l : list A) (n : nat) :
  Forall (λ x, f x = g x) l →
  foldl (λ sum x, sum + f x)%nat n l = foldl (λ sum x, sum + g x)%nat n l.
Proof.
  intros Hall. revert n. induction Hall as [|x l Hx _ IH]; intros n; [done|].
  cbn [foldl]. by rewrite Hx, IH.
Qed.

Lemma filter_length_split {A} (p : A → bool) (l : list A) :
  (length (List.filter p l) + length (List.filter (λ x, negb (p x)) l))%nat
  = length l.
Proof.
  induction l as [|x l IH]; [done|]. cbn [List.filter].
  destruct (p x); cbn [negb length]; lia.
Qed.
End ControllerFacts.

(** X19.  For the results of [executeTools] the numbers of the controller's
    summary agree with each other and with the engine: the total the
    controller adds up from the [count] properties (0 where a failed result
    has none) is the [totalResults] of the engine's metadata, and
    [failedTools] is the number of results whose [success] is false, so it
    is never negative. *)
Theorem controller_summary_is_consistent (maxConcurrent : nat) (w : World)
    (domain : string) (tools : list string) (fs : FS) :
  (0 < maxConcurrent)%nat →
  ∃ er fs' md,
    ToolExecutor.executeTools maxConcurrent w domain (Some tools) fs = Some (er, fs')
    ∧ er_metadata er = Some md
    ∧ let s := ToolController.summary tools (er_results er) in
      sum_totalResults s = md_totalResults md
      ∧ sum_failedTools s
        = Z.of_nat (length (List.filter (λ r, negb (tr_success r)) (er_results er)))
      ∧ (sum_successfulTools s ≤ sum_totalTools s)%nat.
Proof.
  intros Hpos. rewrite executeTools_array by done.
  pose proof (run_batch_length w domain 0 tools fs) as Hlen.
  pose proof (run_batch_counts w domain 0 tools fs) as Hcounts.
  destruct (ToolExecutor.run_batch w domain 0 tools fs) as [settled fs'].
  cbn [fst] in *. eexists _, fs', _. split; [done|]. split; [done|].
  cbn [er_results md_totalResults ToolController.summary sum_totalResults
       sum_failedTools sum_successfulTools sum_totalTools].
  pose proof (filter_length_split tr_success (ToolExecutor.pushed <$> settled))
    as Hsplit.
  rewrite length_fmap, Hlen in Hsplit.
  unfold ToolController.successfulTools, ToolController.totalCount.
  split; [by apply foldl_add_ext|]. split; lia.
Qed.

Lemma controller_summary_is_consistent_witness :
  ∃ er fs',
    ToolExecutor.executeTools 2 example_world "example.com"
      (Some ["nosuchtool"; "amass"; "whois"]) ∅ = Some (er, fs')
    ∧ (sum_successfulTools
         (ToolController.summary ["nosuchtool"; "amass"; "whois"] (er_results er))
       ≤ 3)%nat.
Proof.
  destruct (controller_summary_is_consistent 2 example_world "example.com"
              ["nosuchtool"; "amass"; "whois"] ∅ ltac:(lia))
    as (er & fs' & md & Hrun & _ & _ & _ & Hle).
  exists er, fs'. split; [exact Hrun|exact Hle].
Defined.

(** ** Validation after parsing *)

Section ParsedThenValidated.
Import Js ResultProcessor.

Lemma filter_string_and_all (p : string → bool) (l : list string) :
  Forall (λ s, p s = true) l →
  List.filter (string_and p) (VStr <$> l) = VStr <$> l.
Proof.
  intros Hall. apply filter_all_true. apply Forall_fmap.
  eapply Forall_impl; [exact Hall|]. done.
Qed.

Lemma match_all_skip_elem at_start skip s m :
  m ∈ match_all_skip at_start skip s → ∃ s', at_start s' = Some m.
Proof.
  revert skip. induction s as [|c s IH]; intros skip; cbn [match_all_skip].
  - by intros ?%elem_of_nil.
  - destruct skip as [|k]; [|apply IH].
    destruct (at_start (String c s)) as [m'|] eqn:Hat; [|apply IH].
    intros [->|Hm]%elem_of_cons; [by eexists|by eapply IH].
Qed.

Lemma take_while_all p s : all_chars p (take_while p s) = true.
Proof.
  induction s as [|c s IH]; [done|]. cbn [take_while].
  destruct (p c) eqn:Hc; [|done]. cbn [all_chars]. by rewrite Hc, IH.
Qed.

Lemma includes_single c s :
  includes (String c EmptyString) s = true ↔ c ∈ chars s.
Proof.
  rewrite includes_infix. change (chars (String c EmptyString)) with [c]. split.
  - intros (l1 & l2 & ->). rewrite elem_of_app. right. apply list_elem_of_here.
  - intros (l1 & l2 & ->)%list_elem_of_split. by exists l1, l2.
Qed.

Lemma trim_keeps_char s c :
  is_space c = false → c ∈ chars s → c ∈ chars (trim s).
Proof.
  intros Hc Hin. unfold trim.
  destruct (drop_while_split is_space s) as (l1 & Hs & Hl1 & _).
  destruct (drop_while_end_split is_space (drop_while is_space s))
    as (l2 & Hd & Hl2 & _).
  rewrite Hs, Hd in Hin.
  apply elem_of_app in Hin as [Hin|Hin].
  { by rewrite (proj1 (Forall_forall _ _) Hl1 c Hin) in Hc. }
  apply elem_of_app in Hin as [Hin|Hin]; [done|].
  by rewrite (proj1 (Forall_forall _ _) Hl2 c Hin) in Hc.
Qed.

Lemma url_at_shape s m :
  url_at s = Some m →
  ∃ scheme run,
    m = (scheme ++ run)%string
    ∧ (scheme = "https://" ∨ scheme = "http://")
    ∧ run ≠ EmptyString
    ∧ all_chars (λ c, negb (is_space c)) run = true.
Proof.
  unfold url_at.
  destruct (startsWith "https://" s);
    [|destruct (startsWith "http://" s); [|done]].
  all: match goal with
       | |- context [take_while ?p ?t] =>
           pose proof (take_while_all p t) as Hall;
           destruct (String.eqb_spec (take_while p t) EmptyString) as [|Hne];
           [done|]
       end.
  all: intros [= <-]; eexists _, _; split; [done|].
  - split; [by left|done].
  - split; [by right|done].
Qed.

Lemma url_trim scheme run :
  scheme = "https://" ∨ scheme = "http://" →
  run ≠ EmptyString →
  all_chars (λ c, negb (is_space c)) run = true →
  trim (scheme ++ run) = (scheme ++ run)%string.
Proof.
  intros Hscheme Hne Hall. apply all_chars_Forall in Hall.
  apply trim_id; rewrite chars_app.
  - intros c. destruct Hscheme as [->| ->]; cbn; by intros [= <-].
  - intros c Hlast.
    assert (chars run ≠ []) as Hnil.
    { destruct run; [done|]. discriminate. }
    rewrite last_app in Hlast.
    destruct (last (chars run)) as [d|] eqn:Hd.
    + injection Hlast as <-. apply last_Some_elem_of in Hd.
      apply negb_true_iff. by apply (proj1 (Forall_forall _ _) Hall).
    + by apply last_None in Hd.
Qed.

Lemma parseUrlsOutput_scheme output url :
  url ∈ parseUrlsOutput output →
  startsWith "http://" url || startsWith "https://" url = true.
Proof.
  unfold parseUrlsOutput. destruct (String.eqb output EmptyString);
    [by intros ?%elem_of_nil|].
  intros [Hin _]%elem_of_filter_bool.
  apply list_elem_of_fmap in Hin as (m & -> & Hm).
  apply match_all_skip_elem in Hm as [s' Hat].
  destruct (url_at_shape _ _ Hat) as (scheme & run & -> & Hscheme & Hne & Hall).
  rewrite (url_trim scheme run Hscheme Hne Hall).
  destruct Hscheme as [->| ->]; cbn; by rewrite ?orb_true_r.
Qed.

Lemma email_at_shape s m :
  email_at s = Some m → "@"%char ∈ chars m ∧ "."%char ∈ chars m.
Proof.
  unfold email_at.
  destruct (String.eqb (take_while local_char s) EmptyString); [done|].
  destruct (drop_chars _ s) as [|c rest]; [done|].
  destruct (is_char 64 c); [|done].
  destruct (last_tld_dot 0 rest None) as [k|]; [|done].
  intros [= <-]. rewrite !chars_app. split.
  - apply elem_of_app. right. apply elem_of_app. left. apply list_elem_of_here.
  - apply elem_of_app. right. apply elem_of_app. right.
    apply elem_of_app. right. apply elem_of_app. left. apply list_elem_of_here.
Qed.

Lemma parseEmailsOutput_shape output e :
  e ∈ parseEmailsOutput output → includes "@" e && includes "." e = true.
Proof.
  unfold parseEmailsOutput. destruct (String.eqb output EmptyString);
    [by intros ?%elem_of_nil|].
  intros [Hin _]%elem_of_filter_bool.
  apply list_elem_of_fmap in Hin as (m & -> & Hm).
  apply match_all_skip_elem in Hm as [s' Hat].
  destruct (email_at_shape _ _ Hat) as [Hat' Hdot].
  apply andb_true_iff. split; apply includes_single, trim_keeps_char; try done.
  - unfold toLowerCase. rewrite chars_map_chars.
    apply list_elem_of_fmap. by exists "@"%char.
  - unfold toLowerCase. rewrite chars_map_chars.
    apply list_elem_of_fmap. by exists "."%char.
Qed.
End ParsedThenValidated.

(** X20.  For the output types urls, emails, ips and text, validation drops
    nothing of what the parser of that type returns: every URL found starts
    with its scheme, every address found holds an at-sign and a dot, every
    line kept as an IP address matches the IP expression, and no kept line
    is empty. *)
Theorem validateResults_keeps_parser_output (output domain : string) :
  let keeps (outputType : string) (parsed : list string) :=
    ResultProcessor.validateResults (VStr <$> parsed) outputType domain
    = VStr <$> parsed in
  keeps "urls" (ResultProcessor.parseUrlsOutput output)
  ∧ keeps "emails" (ResultProcessor.parseEmailsOutput output)
  ∧ keeps "ips" (ResultProcessor.parseIPsOutput output)
  ∧ keeps "text" (ResultProcessor.parseTextOutput output).
Proof.
  cbn zeta. unfold ResultProcessor.validateResults. cbn [String.eqb Ascii.eqb Bool.eqb].
  repeat split; apply filter_string_and_all, Forall_forall; intros r Hr.
  - by apply parseUrlsOutput_scheme in Hr.
  - by apply parseEmailsOutput_shape in Hr.
  - unfold ResultProcessor.parseIPsOutput in Hr.
    destruct (String.eqb output EmptyString); [by apply elem_of_nil in Hr|].
    by apply elem_of_filter_bool in Hr as [_ [_ ?]%andb_true_iff].
  - unfold ResultProcessor.parseTextOutput in Hr.
    destruct (String.eqb output EmptyString); [by apply elem_of_nil in Hr|].
    by apply elem_of_filter_bool in Hr as [_ ?].
Qed.

(** ** Filtering *)

Section FilterFacts.
Variable RegExp_i : string → throws (string → bool).

Lemma list_filter_sublist {A} (p : A → bool) (l : list A) :
  List.filter p l `sublist_of` l.
Proof.
  induction l as [|x l IH]; [constructor|]. cbn [List.filter].
  destruct (p x); [by constructor|by apply sublist_cons].
Qed.

Lemma filter_throwing_sublist f l r :
  filter_throwing f l = inr r → r `sublist_of` l.
Proof.
  revert r. induction l as [|x l IH]; intros r; cbn [filter_throwing].
  - intros [= <-]. constructor.
  - destruct (f x) as [?|keep]; [done|]. cbn.
    destruct (filter_throwing f l) as [?|rest]; [done|]. cbn.
    intros [= <-]. destruct keep; [constructor|apply sublist_cons]; by apply IH.
Qed.

Lemma filter_throwing_false f l r :
  (∀ x, f x = inr false) → filter_throwing f l = inr r → r = [].
Proof.
  intros Hf. revert r. induction l as [|x l IH]; intros r; cbn [filter_throwing].
  - by intros [= <-].
  - rewrite Hf. cbn. destruct (filter_throwing f l) as [?|rest]; [done|]. cbn.
    intros [= <-]. by apply IH.
Qed.

Lemma exclude_each_sublist exclude l r :
  exclude_each RegExp_i exclude l = inr r → r `sublist_of` l.
Proof.
  revert l. induction exclude as [|p exclude IH]; intros l; cbn [exclude_each].
  - by intros [= <-].
  - destruct (RegExp_i p) as [?|regex]; [done|]. cbn. intros Hr%IH.
    etrans; [exact Hr|apply list_filter_sublist].
Qed.

Lemma Forall_sublist_of {A} (P : A → Prop) (l1 l2 : list A) :
  l1 `sublist_of` l2 → Forall P l2 → Forall P l1.
Proof.
  induction 1 as [|x l1 l2 _ IH|x l1 l2 _ IH]; [done|..];
    intros [Hx Hl]%Forall_cons; [constructor|]; auto.
Qed.

Lemma Forall_list_filter {A} (p : A → bool) (l : list A) :
  Forall (λ x, p x = true) (List.filter p l).
Proof.
  apply Forall_forall. intros x Hx. by apply elem_of_filter_bool in Hx as [_ ?].
Qed.
End FilterFacts.

(** X21.  When [filterResults] returns, what it returns is the array it was
    given with some entries left out, in the same order; every entry kept
    respects a length limit that is not 0; and an empty [include] array
    leaves nothing. *)
Theorem filterResults_filters (RegExp_i : string → throws (string → bool))
    (results : list string) (criteria : Criteria) (filtered : list string) :
  filterResults RegExp_i results criteria = inr filtered →
  filtered `sublist_of` results
  ∧ (∀ n, crit_minLength criteria = Some n → n ≠ 0%Z →
       Forall (λ r, (n ≤ Z.of_nat (String.length r))%Z) filtered)
  ∧ (∀ n, crit_maxLength criteria = Some n → n ≠ 0%Z →
       Forall (λ r, (Z.of_nat (String.length r) ≤ n)%Z) filtered)
  ∧ (crit_include criteria = Some [] → filtered = []).
Proof.
  unfold filterResults.
  set (f1 := match crit_pattern criteria with
             | Some pattern => _ | None => _ end).
  destruct f1 as [?|l1] eqn:H1; [done|]. cbn [bind].
  assert (l1 `sublist_of` results) as Hs1.
  { subst f1. destruct (crit_pattern criteria) as [pattern|]; [|by injection H1 as <-].
    destruct (String.eqb pattern EmptyString); [by injection H1 as <-|].
    destruct (RegExp_i pattern) as [?|regex]; [done|]. injection H1 as <-.
    apply list_filter_sublist. }
  set (l2 := match crit_minLength criteria with
             | Some minLength => _ | None => _ end).
  set (l3 := match crit_maxLength criteria with
             | Some maxLength => _ | None => _ end).
  assert (l2 `sublist_of` l1) as Hs2.
  { subst l2. destruct (crit_minLength criteria) as [n|]; [|done].
    destruct (n =? 0)%Z; [done|apply list_filter_sublist]. }
  assert (l3 `sublist_of` l2) as Hs3.
  { subst l3. destruct (crit_maxLength criteria) as [n|]; [|done].
    destruct (n =? 0)%Z; [done|apply list_filter_sublist]. }
  assert (∀ n, crit_minLength criteria = Some n → n ≠ 0%Z →
            Forall (λ r, (n ≤ Z.of_nat (String.length r))%Z) l2) as Hmin.
  { intros n Hn Hn0. subst l2. rewrite Hn.
    destruct (Z.eqb_spec n 0) as [|_]; [done|].
    eapply Forall_impl; [apply Forall_list_filter|]. cbn. intros r. lia. }
  assert (∀ n, crit_maxLength criteria = Some n → n ≠ 0%Z →
            Forall (λ r, (Z.of_nat (String.length r) ≤ n)%Z) l3) as Hmax.
  { intros n Hn Hn0. subst l3. rewrite Hn.
    destruct (Z.eqb_spec n 0) as [|_]; [done|].
    eapply Forall_impl; [apply Forall_list_filter|]. cbn. intros r. lia. }
  clearbody l2 l3.
  destruct (match crit_exclude criteria with
            | Some exclude => _ | None => _ end) as [?|l4] eqn:H4; [done|].
  cbn [bind].
  assert (l4 `sublist_of` l3) as Hs4.
  { destruct (crit_exclude criteria) as [exclude|]; [|by injection H4 as <-].
    by apply exclude_each_sublist in H4. }
  intros H5.
  assert (filtered `sublist_of` l4) as Hs5.
  { destruct (crit_include criteria) as [include|]; [|by injection H5 as <-].
    by apply filter_throwing_sublist in H5. }
  assert (filtered `sublist_of` l3) as Hs53 by (etrans; [exact Hs5|exact Hs4]).
  assert (filtered `sublist_of` l2) as Hs52 by (etrans; [exact Hs53|exact Hs3]).
  split; [etrans; [exact Hs52|]; etrans; [exact Hs2|exact Hs1]|].
  split; [|split].
  - intros n Hn Hn0. eapply Forall_sublist_of; [exact Hs52|exact (Hmin n Hn Hn0)].
  - intros n Hn Hn0. eapply Forall_sublist_of; [exact Hs53|exact (Hmax n Hn Hn0)].
  - intros Hinc. rewrite Hinc in H5.
    by apply (filter_throwing_false _ _ _ (λ _, eq_refl)) in H5.
Qed.

Lemma filterResults_filters_witness :
  ["api.example.com"; "www.example.com"]
    `sublist_of` ["api.example.com"; "x.org"; "www.example.com"].
Proof.
  apply (filterResults_filters RegExp_literal
           ["api.example.com"; "x.org"; "www.example.com"]
           {| crit_pattern := Some "EXAMPLE"; crit_minLength := Some 4%Z;
              crit_maxLength := Some 0%Z; crit_exclude := Some ["mail"];
              crit_include := None |}).
  reflexivity.
Defined.

(** ** Label counts *)

Section Levels.

Lemma getSubdomainLevels_snoc domains domain :
  getSubdomainLevels (domains ++ [domain])
  = <[length (Js.split "." domain) :=
        (default 0 (getSubdomainLevels domains !! length (Js.split "." domain)) + 1)%nat]>
      (getSubdomainLevels domains).
Proof. unfold getSubdomainLevels. by rewrite foldl_snoc. Qed.

Lemma split_acc_not_nil sep cur s : Js.split_acc sep cur s ≠ [].
Proof.
  revert cur. induction s as [|c s IH]; intros cur; cbn [Js.split_acc]; [done|].
  destruct (Ascii.eqb c sep); [done|apply IH].
Qed.
End Levels.

(** X22.  [getSubdomainLevels] maps each number of labels to the number of
    names that have so many labels: a number that no name has is not a key,
    and 0 never is. *)
Theorem getSubdomainLevels_counts (domains : list string) (k : nat) :
  getSubdomainLevels domains !! k
  = (let n := length (List.filter (labels_are k) domains) in
     if (n =? 0)%nat then None else Some n)
  ∧ getSubdomainLevels domains !! 0%nat = None.
Proof.
  assert (∀ k, getSubdomainLevels domains !! k
               = (let n := length (List.filter (labels_are k) domains) in
                  if (n =? 0)%nat then None else Some n)) as Hcount.
  { clear k. induction domains as [|domain domains IH] using rev_ind; intros k.
    - done.
    - rewrite getSubdomainLevels_snoc, List.filter_app, length_app.
      cbn [List.filter]. cbn zeta.
      set (n := length (List.filter (labels_are k) domains)).
      pose proof (IH k) as IHk. cbn zeta in IHk. fold n in IHk.
      destruct (labels_are k domain) eqn:Hk; unfold labels_are in Hk.
      + apply Nat.eqb_eq in Hk. rewrite Hk, lookup_insert_eq, IHk. cbn [length].
        destruct (Nat.eqb_spec (n + 1) 0) as [|_]; [lia|].
        destruct (Nat.eqb_spec n 0) as [Hn|_]; [by rewrite Hn|done].
      + apply Nat.eqb_neq in Hk. rewrite lookup_insert_ne by done.
        rewrite IHk. cbn [length]. by rewrite Nat.add_0_r. }
  split; [apply Hcount|]. rewrite Hcount. cbn zeta.
  rewrite filter_all_false; [done|].
  apply Forall_forall. intros domain _. unfold labels_are.
  apply Nat.eqb_neq. intros Hlen. apply length_zero_iff_nil in Hlen.
  by apply split_acc_not_nil in Hlen.
Qed.

(** ** The processes of one call of [runTool] *)

Section SpawnLog.
Import ToolExecutor.
Variable os : OS.

Lemma runTool_fuel_spawned fuel toolConfig st r :
  runTool_fuel fuel os toolConfig st = Some r →
  ∃ new,
    rs_spawned r.2 = rs_spawned st ++ new
    ∧ (length new ≤ if fallbackAttempted (rs_context st) then 1 else 2)%nat
    ∧ (fallback toolConfig = None → length new ≤ 1)%nat.
Proof.
  revert toolConfig st r. induction fuel as [|fuel IH]; intros toolConfig st r;
    [done|].
  cbn [runTool_fuel].
  assert (∀ b : bool, 0 ≤ (if b then 1 else 2))%nat as Hb by (intros []; lia).
  assert (∀ b : bool, 1 ≤ (if b then 1 else 2))%nat as Hb1 by (intros []; lia).
  destruct (args toolConfig) as [a|];
    [|intros [= <-]; exists []; rewrite app_nil_r; cbn; by auto with lia].
  destruct (command toolConfig) as [cmd|];
    [|intros [= <-]; exists []; rewrite app_nil_r; cbn; by auto with lia].
  set (argv := processCommandArgs a (rs_context st)).
  destruct (event (os (length (rs_spawned st)) cmd argv)) as [m|m|code sig out err|];
    try (intros [= <-]; exists [(cmd, argv)]; cbn; by auto with lia).
  destruct (fallback toolConfig) as [fb|] eqn:Hfb;
    [|intros [= <-]; exists [(cmd, argv)]; cbn; by auto with lia].
  cbn [spawned rs_context].
  destruct (fallbackAttempted (rs_context st)) eqn:Hflag;
    [intros [= <-]; exists [(cmd, argv)]; cbn; split; [done|]; split; [lia|done]|].
  intros Hrun. apply IH in Hrun as (new & Hnew & Hlen & _).
  cbn in Hnew, Hlen. exists ((cmd, argv) :: new).
  rewrite Hnew, <- app_assoc. split; [done|]. cbn [length].
  split; [lia|done].
Qed.
End SpawnLog.

(** X23.  One call of [runTool] starts at most two processes, and at most
    one when the configuration has no fallback or when the fallback has
    been tried before; the processes started before stay in the log. *)
Theorem runTool_spawn_log (os : OS) (toolConfig : ToolConfig) (st : RunState) :
  ∃ new,
    rs_spawned (ToolExecutor.runTool os toolConfig st).2 = rs_spawned st ++ new
    ∧ (length new ≤ 2)%nat
    ∧ (fallback toolConfig = None ∨ fallbackAttempted (rs_context st) = true
       → length new ≤ 1)%nat.
Proof.
  destruct (runTool_fuel_2 os toolConfig st) as [r Hr].
  unfold ToolExecutor.runTool. rewrite Hr. cbn [default].
  destruct (runTool_fuel_spawned os 2 toolConfig st r Hr)
    as (new & Hnew & Hlen & Hnone).
  exists new. split; [done|]. split.
  - destruct (fallbackAttempted (rs_context st)); lia.
  - intros [Hfb|Hflag]; [by apply Hnone|]. by rewrite Hflag in Hlen.
Qed.
